(** * Heart-rate monitor: the signal-processing pipeline

    A shallow embedding of the JavaScript of richrd/heart-rate-monitor:
    the monitor module [heartRateMonitor] (the script that follows the
    project notes in README.md) and its app-wired copy (src/main.js).
    Both keep a bounded buffer of brightness samples, summarise it on
    every frame ([analyzeData]), look for falling crossings of the mean
    ([getAverageCrossings]), turn them into a rate ([calculateBpm]) and
    draw the trace ([drawGraph]).  Around that runs the code that checks the
    browser ([initialize]) and opens and closes a session
    ([startMonitoring], [stopMonitoring], [monitorLoop]).

    JavaScript numbers are IEEE-754 doubles.  The functions below are
    written once, over an interface [JSNumber], and read at two types:
    - [float], the kernel's binary64 numbers: what the code computes;
    - [xnum], exact rationals with the IEEE special values [+oo], [-oo]
      and [NaN], where division by zero is kept and rounding is not:
      the reading under which the arithmetic laws of the design hold. *)

From Stdlib Require Import ZArith QArith Qcanon Qround Lqa Floats.
From Stdlib Require Uint63.
From Stdlib Require Import Strings.Byte Strings.String ssreflect.
From stdpp Require Import base option numbers strings sorting list.

Set Default Proof Using "Type".

(** ** JavaScript numbers *)

Declare Scope js_scope.
Delimit Scope js_scope with js.

(** The operations of the language on numbers that the pipeline uses.
    [js_lt] is [<] ([a > b] is [b < a]), [js_eq] is [==] (on numbers also
    [===]), [js_round] is [Math.round]. *)
Class JSNumber (num : Type) := {
  js_of_Z : Z → num;
  js_nan : num;
  js_add : num → num → num;
  js_sub : num → num → num;
  js_mul : num → num → num;
  js_div : num → num → num;
  js_lt : num → num → bool;
  js_eq : num → num → bool;
  js_round : num → num;
}.

Infix "+" := js_add : js_scope.
Infix "-" := js_sub : js_scope.
Infix "*" := js_mul : js_scope.
Infix "/" := js_div : js_scope.
Infix "<" := js_lt : js_scope.
Notation "a > b" := (js_lt b a) (only parsing) : js_scope.
Infix "==" := js_eq (at level 70, no associativity) : js_scope.
Notation "a != b" := (negb (js_eq a b)) (at level 70, no associativity) : js_scope.

Section JSNumberDerived.
Context {num : Type} `{JSNumber num}.

Definition js_of_nat (n : nat) : num := js_of_Z (Z.of_nat n).

  (** A decimal literal [p/q] of the source ([0.5], [0.75]). *)
Definition js_of_Q (q : Q) : num :=
    (js_of_Z (Qnum q) / js_of_Z (Z.pos (Qden q)))%js.

  (** [ToBoolean] of a number: [0] and [NaN] are falsy. *)
Definition js_truthy (x : num) : bool :=
    (x == x)%js && (x != js_of_Z 0)%js.
End JSNumberDerived.

(** What the proofs about comparisons need of [<]. *)
Class JSNumberLaws (num : Type) `{JSNumber num} := {
  js_lt_asym : ∀ x y : num, (x < y)%js = true → (y < x)%js = false;
  js_lt_trans : ∀ x y z : num,
    (x < y)%js = true → (y < z)%js = true → (x < z)%js = true;
}.

(** *** Exact numbers with the IEEE special values *)

Inductive xnum : Type :=
  | XFin (q : Qc)
  | XPosInf
  | XNegInf
  | XNaN.

Global Instance xnum_eq_dec : EqDecision xnum.
Proof. solve_decision. Defined.

Module X.
Local Open Scope Qc_scope.

Definition inf (negative : bool) : xnum :=
    if negative then XNegInf else XPosInf.

  (** The sign of a number that is not [NaN]; zero counts as [+0]. *)
Definition negative (q : Qc) : bool := bool_decide (q < 0).

Definition opp (x : xnum) : xnum :=
    match x with
    | XFin q => XFin (- q)
    | XPosInf => XNegInf
    | XNegInf => XPosInf
    | XNaN => XNaN
    end.

Definition add (x y : xnum) : xnum :=
    match x, y with
    | XNaN, _ | _, XNaN => XNaN
    | XFin a, XFin b => XFin (a + b)
    | XPosInf, XNegInf | XNegInf, XPosInf => XNaN
    | XPosInf, _ | _, XPosInf => XPosInf
    | XNegInf, _ | _, XNegInf => XNegInf
    end.

Definition sub (x y : xnum) : xnum := add x (opp y).

Definition mul (x y : xnum) : xnum :=
    match x, y with
    | XNaN, _ | _, XNaN => XNaN
    | XFin a, XFin b => XFin (a * b)
    | XFin a, XPosInf | XPosInf, XFin a =>
        if bool_decide (a = 0) then XNaN else inf (negative a)
    | XFin a, XNegInf | XNegInf, XFin a =>
        if bool_decide (a = 0) then XNaN else inf (negb (negative a))
    | XPosInf, XPosInf | XNegInf, XNegInf => XPosInf
    | XPosInf, XNegInf | XNegInf, XPosInf => XNegInf
    end.

  (** [a / 0] is [NaN] for [a = 0] and an infinity of the sign of [a]
      otherwise: the code divides by a difference or a count, whose zero
      is [+0]. *)
Definition div (x y : xnum) : xnum :=
    match x, y with
    | XNaN, _ | _, XNaN => XNaN
    | XFin a, XFin b =>
        if bool_decide (b = 0)
        then if bool_decide (a = 0) then XNaN else inf (negative a)
        else XFin (a / b)
    | XFin _, (XPosInf | XNegInf) => XFin 0
    | XPosInf, XFin b => inf (negative b)
    | XNegInf, XFin b => inf (negb (negative b))
    | (XPosInf | XNegInf), (XPosInf | XNegInf) => XNaN
    end.

Definition lt (x y : xnum) : bool :=
    match x, y with
    | XNaN, _ | _, XNaN => false
    | XFin a, XFin b => bool_decide (a < b)
    | XNegInf, (XFin _ | XPosInf) => true
    | XFin _, XPosInf => true
    | _, _ => false
    end.

Definition eq (x y : xnum) : bool :=
    match x, y with
    | XNaN, _ | _, XNaN => false
    | _, _ => bool_decide (x = y)
    end.

  (** [Math.round]: the nearest integer, ties towards [+oo]. *)
Definition round (x : xnum) : xnum :=
    match x with
    | XFin q => XFin (Qc_of_Z (Qfloor (q + Q2Qc (1 # 2))))
    | _ => x
    end.
End X.

Global Instance xnum_number : JSNumber xnum := {|
  js_of_Z z := XFin (Qc_of_Z z);
  js_nan := XNaN;
  js_add := X.add;
  js_sub := X.sub;
  js_mul := X.mul;
  js_div := X.div;
  js_lt := X.lt;
  js_eq := X.eq;
  js_round := X.round;
|}.

(** *** Doubles *)

Module F.
  (** The double nearest to an integer (exact below [2^53]). *)
Definition of_Z (z : Z) : float :=
    SF2Prim (binary_normalize prec emax z 0 false).

  (** [Math.round] on a double, through its mantissa and exponent: the
      value is [±m * 2^e]; for [e < 0] the result is
      [floor ((2 * ±m + 2^-e) / 2^(1-e))], and a zero keeps the sign. *)
Definition round (x : float) : float :=
    match Prim2SF x with
    | S754_finite s m e =>
        if (0 <=? e)%Z then x
        else
          let den := (2 ^ (- e))%Z in
          let n := if s then Z.neg m else Z.pos m in
          let r := ((2 * n + den) `div` (2 * den))%Z in
          if (r =? 0)%Z then (if s then (- 0)%float else 0%float) else of_Z r
    | _ => x
    end.
End F.

Global Instance float_number : JSNumber float := {|
  js_of_Z := F.of_Z;
  js_nan := nan;
  js_add := PrimFloat.add;
  js_sub := PrimFloat.sub;
  js_mul := PrimFloat.mul;
  js_div := PrimFloat.div;
  js_lt := PrimFloat.ltb;
  js_eq := PrimFloat.eqb;
  js_round := F.round;
|}.

(** ** Completions

    A call either returns or throws.  The only fault the pipeline can
    raise by itself is the [TypeError] of reading a property of
    [undefined] or of reducing an empty array without an initial value. *)

Inductive js_error : Type := TypeError.

Inductive completion (A : Type) : Type :=
  | Normal (a : A)
  | Throw (e : js_error).
Arguments Normal {A} a.
Arguments Throw {A} e.

Global Instance completion_ret : MRet completion := λ A a, Normal a.
Global Instance completion_bind : MBind completion := λ A B f c,
  match c with
  | Normal a => f a
  | Throw e => Throw e
  end.

(** [o.field] for [o] read from an array: [undefined] has no properties. *)
Definition defined {A} (o : option A) : completion A :=
  match o with
  | Some a => Normal a
  | None => Throw TypeError
  end.

(** [Array.prototype.reduce] without an initial value. *)
Definition Array_reduce {A} (f : A → A → A) (l : list A) : completion A :=
  match l with
  | [] => Throw TypeError
  | x :: xs => Normal (fold_left f xs x)
  end.

(** ** Data *)

(** [{ value, time }]: one brightness reading and [Date.now()] when it
    was taken. *)
Record sample (num : Type) : Type := Sample {
  value : num;
  time : num;
}.
Arguments Sample {num} value time.
Arguments value {num} s.
Arguments time {num} s.

(** What [analyzeData] returns. *)
Record dataStats (num : Type) : Type := DataStats {
  average : num;
  min : num;
  max : num;
  range : num;
  crossings : list (sample num);
}.
Arguments DataStats {num} average min max range crossings.
Arguments average {num} d.
Arguments min {num} d.
Arguments max {num} d.
Arguments range {num} d.
Arguments crossings {num} d.

(** The size of a canvas: [canvas.width] and [canvas.height] are
    unsigned integers. *)
Record canvas : Type := Canvas {
  width : N;
  height : N;
}.

(** One [lineTo (x, y)] of the graph's path. *)
Definition point (num : Type) : Type := (num * num)%type.

(** [const MAX_SAMPLES = 60 * 5]. *)
Definition MAX_SAMPLES : nat := 60 * 5.

(** The values [i] takes in [for (let i = 0; i < n; i += 4)]. *)
Definition for_step4 (n : nat) : list nat :=
  (λ k, 4 * k) <$> seq 0 ((n + 3) / 4).

Section Pipeline.
Context {num : Type} `{JSNumber num}.

(** *** Brightness extraction *)

(** [pixelData[i]] inside a sum: a byte of the [Uint8ClampedArray], or
    [undefined], which [+] turns into [NaN]. *)
Definition channel (pixelData : list byte) (i : nat) : num :=
  match pixelData !! i with
  | Some b => js_of_Z (Z.of_N (Byte.to_N b))
  | None => js_nan
  end.

(** [averageBrightness] of the monitor module (README.md, 95-115): the
    red and green channels only. *)
Definition averageBrightness (pixelData : list byte) : num :=
  let sum :=
    fold_left (λ sum i, sum + channel pixelData i + channel pixelData (i + 1))%js
      (for_step4 (length pixelData)) (js_of_Z 0) in
  let avg := (sum / (js_of_nat (length pixelData) * js_of_Q 0.5))%js in
  (avg / js_of_Z 255)%js.

(** [samplers.basicAvgLightness] of the app (main.js, 37-57): red, green
    and blue. *)
Definition basicAvgLightness (pixelData : list byte) : num :=
  let sum :=
    fold_left
      (λ sum i, sum + channel pixelData i + channel pixelData (i + 1)
                + channel pixelData (i + 2))%js
      (for_step4 (length pixelData)) (js_of_Z 0) in
  let avg := (sum / (js_of_nat (length pixelData) * js_of_Q 0.75))%js in
  (avg / js_of_Z 255)%js.

(** *** The sample buffer *)

(** [SAMPLE_BUFFER.length = 0]. *)
Definition resetBuffer (SAMPLE_BUFFER : list (sample num)) : list (sample num) :=
  [].

(** [SAMPLE_BUFFER.push({ value, time })] and the eviction that follows
    it in [processFrame] (main.js, 188-191): [shift] drops the first
    element. *)
Definition pushSample (SAMPLE_BUFFER : list (sample num)) (s : sample num)
    : list (sample num) :=
  let SAMPLE_BUFFER := SAMPLE_BUFFER ++ [s] in
  if MAX_SAMPLES <? length SAMPLE_BUFFER then tail SAMPLE_BUFFER
  else SAMPLE_BUFFER.

(** *** Analysis *)

(** The body of the [forEach] of [getAverageCrossings]: the state is the
    list collected so far and [previousSample]. *)
Definition crossing_step (average : num)
    (st : list (sample num) * sample num) (currentSample : sample num)
    : list (sample num) * sample num :=
  let '(crossingsSamples, previousSample) := st in
  (if (value currentSample < average)%js && (value previousSample > average)%js
   then crossingsSamples ++ [currentSample]
   else crossingsSamples,
   currentSample).

(** [previousSample] starts as [samples[0]]; on the empty array it is
    [undefined] and the loop body, the only place that reads it, never
    runs. *)
Definition getAverageCrossings (samples : list (sample num)) (average : num)
    : list (sample num) :=
  match samples !! 0 with
  | None => []
  | Some first => (fold_left (crossing_step average) samples ([], first)).1
  end.

(** The body of the [forEach] of [analyzeData] on the pair [(min, max)]. *)
Definition extrema_step (st : num * num) (s : sample num) : num * num :=
  let '(min, max) := st in
  let max := if (value s > max)%js then value s else max in
  let min := if (value s < min)%js then value s else min in
  (min, max).

Definition analyzeData (samples : list (sample num)) : completion (dataStats num) :=
  sum ← Array_reduce js_add (value <$> samples);
  let average := (sum / js_of_nat (length samples))%js in
  first ← defined (samples !! 0);
  let '(min, max) := fold_left extrema_step samples (value first, value first) in
  let range := (max - min)%js in
  let crossings := getAverageCrossings samples average in
  mret (DataStats average min max range crossings).

(** *** The rate *)

(** [None] is [undefined], the result of the bare [return]. *)
Definition calculateBpm (samples : list (sample num)) : completion (option num) :=
  if length samples <? 2 then mret None
  else
    last ← defined (samples !! (length samples - 1));
    first ← defined (samples !! 0);
    let averageInterval :=
      ((time last - time first) / (js_of_nat (length samples) - js_of_Z 1))%js in
    mret (Some (js_of_Z 60000 / averageInterval)%js).

(** *** The graph *)

(** The [forEach] of [drawGraph] with its index: [x] and [y] of every
    sample, a [lineTo] whenever [y] differs from the [y] before it. *)
Fixpoint lineTos (xOf : nat → num) (yOf : sample num → num)
    (i : nat) (previousY : num) (samples : list (sample num))
    : list (point num) :=
  match samples with
  | [] => []
  | sample :: rest =>
      let x := xOf i in
      let y := yOf sample in
      (if (y != previousY)%js then [(x, y)] else [])
      ++ lineTos xOf yOf (S i) y rest
  end.

(** [xScaling * i + xOffset], the same in both files. *)
Definition graph_x (GRAPH_CANVAS : canvas) (SAMPLE_BUFFER : list (sample num))
    (i : nat) : num :=
  let xScaling := (js_of_Z (Z.of_N (width GRAPH_CANVAS)) / js_of_nat MAX_SAMPLES)%js in
  let xOffset :=
    ((js_of_nat MAX_SAMPLES - js_of_nat (length SAMPLE_BUFFER)) * xScaling)%js in
  (xScaling * js_of_nat i + xOffset)%js.

(** [y] of a sample in the monitor module: the stroke width for a
    sample of value 0, and otherwise the value rescaled from
    [min .. max] to the height left between the insets. *)
Definition graph_y (GRAPH_CANVAS : canvas) (lineWidth : num)
    (dataStats : dataStats num) (sample : sample num) : num :=
  let maxHeight :=
    (js_of_Z (Z.of_N (height GRAPH_CANVAS)) - lineWidth * js_of_Z 2)%js in
  if (value sample != js_of_Z 0)%js
  then (maxHeight * (value sample - min dataStats)
        / (max dataStats - min dataStats) + lineWidth)%js
  else lineWidth.

(** [drawGraph] of the monitor module (README.md, 349-387).  [lineWidth]
    is what [GRAPH_CONTEXT.lineWidth] reads after the assignment of
    [GRAPH_WIDTH]; the result is the path handed to [stroke]. *)
Definition drawGraph (GRAPH_CANVAS : canvas) (lineWidth : num)
    (SAMPLE_BUFFER : list (sample num)) (dataStats : dataStats num)
    : list (point num) :=
  lineTos (graph_x GRAPH_CANVAS SAMPLE_BUFFER)
    (graph_y GRAPH_CANVAS lineWidth dataStats)
    0 (js_of_Z 0) SAMPLE_BUFFER.

(** [y] of a sample in the app: the width of the line is 6 and there is
    no special case. *)
Definition graph_y_main (GRAPH_CANVAS : canvas)
    (dataStats : dataStats num) (sample : sample num) : num :=
  let lineWidth := js_of_Z 6 in
  let maxHeight :=
    (js_of_Z (Z.of_N (height GRAPH_CANVAS)) - lineWidth * js_of_Z 2)%js in
  (maxHeight * (value sample - min dataStats)
   / (max dataStats - min dataStats) + lineWidth)%js.

(** [drawGraph] of the app (main.js, 268-309). *)
Definition drawGraph_main (GRAPH_CANVAS : canvas)
    (SAMPLE_BUFFER : list (sample num)) (dataStats : dataStats num)
    : list (point num) :=
  lineTos (graph_x GRAPH_CANVAS SAMPLE_BUFFER)
    (graph_y_main GRAPH_CANVAS dataStats)
    0 (js_of_Z 0) SAMPLE_BUFFER.

End Pipeline.

(** ** One tick *)

(** The state a tick reads and writes: the buffer, what the rate display
    last received ([None]: nothing yet) and the path last drawn. *)
Record monitor (num : Type) : Type := Monitor {
  SAMPLE_BUFFER : list (sample num);
  bpm_display : option num;
  graph : list (point num);
}.
Arguments Monitor {num} SAMPLE_BUFFER bpm_display graph.
Arguments SAMPLE_BUFFER {num} m.
Arguments bpm_display {num} m.
Arguments graph {num} m.

(** What a tick takes from the browser: the pixels of the sampling
    canvas and [Date.now()]. *)
Record frame (num : Type) : Type := Frame {
  pixelData : list byte;
  now : num;
}.
Arguments Frame {num} pixelData now.
Arguments pixelData {num} f.
Arguments now {num} f.

Section Ticks.
Context {num : Type} `{JSNumber num}.

(** The module as loaded: [const SAMPLE_BUFFER = []]. *)
Definition initial : monitor num := Monitor [] None [].

(** [resetBuffer ()] on the state. *)
Definition reset (m : monitor num) : monitor num :=
  Monitor (resetBuffer (SAMPLE_BUFFER m)) (bpm_display m) (graph m).

(** [if (bpm) { setBpmDisplay(Math.round(bpm)) }]. *)
Definition showBpm (shown : option num) (bpm : option num) : option num :=
  match bpm with
  | Some bpm => if js_truthy bpm then Some (js_round bpm) else shown
  | None => shown
  end.

(** [processFrame] of the monitor module (README.md, 255-282). *)
Definition processFrame (GRAPH_CANVAS : canvas) (lineWidth : num)
    (m : monitor num) (f : frame num) : completion (monitor num) :=
  let value := averageBrightness (pixelData f) in
  let time := now f in
  let SAMPLE_BUFFER := pushSample (SAMPLE_BUFFER m) (Sample value time) in
  dataStats ← analyzeData SAMPLE_BUFFER;
  bpm ← calculateBpm (crossings dataStats);
  mret (Monitor SAMPLE_BUFFER (showBpm (bpm_display m) bpm)
          (drawGraph GRAPH_CANVAS lineWidth SAMPLE_BUFFER dataStats)).

(** [processFrame] of the app (main.js, 171-201). *)
Definition processFrame_main (GRAPH_CANVAS : canvas)
    (m : monitor num) (f : frame num) : completion (monitor num) :=
  let value := basicAvgLightness (pixelData f) in
  let time := now f in
  let SAMPLE_BUFFER := pushSample (SAMPLE_BUFFER m) (Sample value time) in
  dataStats ← analyzeData SAMPLE_BUFFER;
  bpm ← calculateBpm (crossings dataStats);
  mret (Monitor SAMPLE_BUFFER (showBpm (bpm_display m) bpm)
          (drawGraph_main GRAPH_CANVAS SAMPLE_BUFFER dataStats)).

(** A run of ticks, one per frame, stopping at the first fault. *)
Fixpoint ticks (tick : monitor num → frame num → completion (monitor num))
    (m : monitor num) (frames : list (frame num)) : completion (monitor num) :=
  match frames with
  | [] => mret m
  | f :: frames => m ← tick m f; ticks tick m frames
  end.

End Ticks.

(** ** Starting up, and a session

    The code around the ticks: [initialize], which checks the browser and
    wires the page, and [toggleMonitoring], [startMonitoring],
    [stopMonitoring] and [monitorLoop], which open the camera and keep
    the ticks coming. *)

(** *** The test for camera support *)

(** The operands of [!"mediaDevices" in navigator]: strings and
    booleans. *)
Inductive js_value : Type :=
  | JSString (s : string)
  | JSBoolean (b : bool).

(** [ToBoolean]: of the strings only the empty one is falsy. *)
Definition ToBoolean (v : js_value) : bool :=
  match v with
  | JSString s => negb (String.eqb s EmptyString)
  | JSBoolean b => b
  end.

(** [ToPropertyKey]: a boolean becomes its name. *)
Definition ToPropertyKey (v : js_value) : string :=
  match v with
  | JSString s => s
  | JSBoolean true => "true"
  | JSBoolean false => "false"
  end.

(** [!v], and [key in object] for an object given by the keys it has,
    its own and the inherited ones. *)
Definition js_not (v : js_value) : js_value := JSBoolean (negb (ToBoolean v)).

Definition js_in (key : js_value) (object : string → bool) : bool :=
  object (ToPropertyKey key).

(** *** The browser *)

(** An entry of [enumerateDevices ()]. *)
Record device : Type := Device {
  kind : string;
  deviceId : string;
}.

(** A [MediaStream], by the names of its video tracks. *)
Record MediaStream : Type := Stream {
  getVideoTracks : list string;
}.

(** [navigator.mediaDevices]: the devices it lists, and what
    [getUserMedia] does when asked for the camera of a given [deviceId]:
    it resolves with a stream or rejects with an error, of which the
    code reads the message. *)
Record MediaDevices : Type := {
  enumerateDevices : list device;
  getUserMedia : string → MediaStream + string;
}.

(** What the code reads of the browser.  [hasProperty] answers
    [key in navigator]; [mediaDevices] is [navigator.mediaDevices], if
    there is one; [TypeError_message p] is the message of the
    [TypeError] the engine raises when property [p] of [undefined] is
    read. *)
Record browser : Type := Browser {
  hasProperty : string → bool;
  mediaDevices : option MediaDevices;
  TypeError_message : string → string;
}.

(** What the code does to the page and the browser, in the order it
    does it.  [setTimeout] and [requestAnimationFrame] are those of
    [monitorLoop]; [addEventListener] names the target and the event;
    [resize] is a run of [handleResize]. *)
Inductive event : Type :=
  | alert (message : string)
  | addEventListener (target type : string)
  | resize
  | applyConstraints (track : string) (torch : bool)
  | srcObject (stream : option MediaStream)
  | play
  | pause
  | setTimeout (delay : nat)
  | requestAnimationFrame.

(** The line feed of ["\n"]. *)
Definition newline : string := String (Ascii.ascii_of_nat 10) EmptyString.

(** The state of the app between its callbacks: that of the ticks, the
    flag [MONITORING], the stream in [VIDEO_STREAM] and the events so
    far. *)
Record session (num : Type) : Type := Session {
  state : monitor num;
  MONITORING : bool;
  VIDEO_STREAM : option MediaStream;
  events : list event;
}.
Arguments Session {num} state MONITORING VIDEO_STREAM events.
Arguments state {num} s.
Arguments MONITORING {num} s.
Arguments VIDEO_STREAM {num} s.
Arguments events {num} s.

(** How the call of an [async] function ends: its promise is fulfilled,
    or rejected with a fault of the language or with an [Error] of some
    message. *)
Inductive settled : Type :=
  | fulfilled
  | rejected (e : js_error)
  | rejected_Error (message : string).

(** [const START_DELAY = 1500]. *)
Definition START_DELAY : nat := 1500.

(** [devices.filter (...)] and [cameras[cameras.length - 1]] of
    [getCamera] (README.md, 156-162) and of [startMonitoring] of the app
    (main.js, 99-103): the last video input listed; with no camera the
    index is [-1] and the result [undefined]. *)
Definition getCamera (devices : list device) : option device :=
  let cameras := filter (λ device, kind device = "videoinput") devices in
  match length cameras with
  | 0 => None
  | S n => cameras !! n
  end.

(** The text of the alert of [initialize]. *)
Definition unsupported : string :=
  "Sorry, your browser doesn't support camera access which is required by this app.".

Section Session.
Context {num : Type} `{JSNumber num}.

(** The module as loaded: not monitoring, no stream. *)
Definition loaded : session num := Session initial false None [].

(** [initialize] of the monitor module (README.md, 117-140).  The
    result is what it returns: [false], or nothing ([None]). *)
Definition initialize (b : browser) (s : session num) : session num * option bool :=
  if js_in (js_not (JSString "mediaDevices")) (hasProperty b)
  then
    (Session (state s) (MONITORING s) (VIDEO_STREAM s)
       (events s ++ [alert unsupported]),
     Some false)
  else
    (Session (state s) (MONITORING s) (VIDEO_STREAM s)
       (events s ++ [addEventListener "window" "resize"; resize]),
     None).

(** [initialize] of the app (main.js, 60-84), which resets the buffer
    first and listens for the click that toggles a session. *)
Definition initialize_main (b : browser) (s : session num)
    : session num * option bool :=
  let m := reset (state s) in
  if js_in (js_not (JSString "mediaDevices")) (hasProperty b)
  then
    (Session m (MONITORING s) (VIDEO_STREAM s)
       (events s ++ [alert unsupported]),
     Some false)
  else
    (Session m (MONITORING s) (VIDEO_STREAM s)
       (events s ++ [addEventListener "window" "resize";
                     addEventListener "bpm-display-container" "click";
                     resize]),
     None).

(** [startCameraStream] (README.md, 214-237; main.js, 139-157): the
    stream, or an alert and [undefined].  Reading [camera.deviceId] is
    inside the [try]. *)
Definition startCameraStream (b : browser) (media : MediaDevices)
    (camera : option device) : list event * option MediaStream :=
  let failed message :=
    alert ("Failed to access camera!" ++ newline ++ "Error: " ++ message) in
  match camera with
  | None => ([failed (TypeError_message b "deviceId")], None)
  | Some camera =>
      match getUserMedia media (deviceId camera) with
      | inl stream => ([], Some stream)
      | inr message => ([failed message], None)
      end
  end.

(** [setTorchStatus] (README.md, 239-249; main.js, 159-169), up to the
    call of [applyConstraints] on the first video track. *)
Definition setTorchStatus (b : browser) (stream : option MediaStream)
    (status : bool) : list event :=
  let failed message :=
    alert ("Starting torch failed." ++ newline ++ "Error: " ++ message) in
  match stream with
  | None => [failed (TypeError_message b "getVideoTracks")]
  | Some stream =>
      match getVideoTracks stream !! 0 with
      | None => [failed (TypeError_message b "applyConstraints")]
      | Some track => [applyConstraints track status]
      end
  end.

(** [setBpmDisplay] with the empty string: the display holds no rate. *)
Definition blank (m : monitor num) : monitor num :=
  Monitor (SAMPLE_BUFFER m) None (graph m).

(** [startMonitoring] of the monitor module (README.md, 164-194), each
    [await] taking the browser's answer.  The statements before a
    rejection have run when it is raised, and so the state comes with
    the way the call ends. *)
Definition startMonitoring (b : browser) (s : session num) : session num * settled :=
  let m := blank (reset (state s)) in
  let events := events s ++ [resize] in
  match mediaDevices b with
  | None => (Session m (MONITORING s) (VIDEO_STREAM s) events, rejected TypeError)
  | Some media =>
      let camera := getCamera (enumerateDevices media) in
      let '(alerts, stream) := startCameraStream b media camera in
      match stream with
      | None =>
          (Session m (MONITORING s) None (events ++ alerts),
           rejected_Error "Unable to start video stream")
      | Some _ =>
          (Session m true stream
             (events ++ alerts ++ setTorchStatus b stream true
              ++ [srcObject stream; play; setTimeout START_DELAY]),
           fulfilled)
      end
  end.

(** [startMonitoring] of the app (main.js, 96-119): the display is left
    as it is, a camera that does not start ends the call quietly, and
    the loop starts after 50 ms. *)
Definition startMonitoring_main (b : browser) (s : session num)
    : session num * settled :=
  let m := reset (state s) in
  match mediaDevices b with
  | None => (Session m (MONITORING s) (VIDEO_STREAM s) (events s), rejected TypeError)
  | Some media =>
      let camera := getCamera (enumerateDevices media) in
      let '(alerts, stream) := startCameraStream b media camera in
      match stream with
      | None => (Session m (MONITORING s) None (events s ++ alerts), fulfilled)
      | Some _ =>
          (Session m true stream
             (events s ++ alerts ++ setTorchStatus b stream true
              ++ [srcObject stream; play; setTimeout 50]),
           fulfilled)
      end
  end.

(** [stopMonitoring] (README.md, 196-201; main.js, 121-126). *)
Definition stopMonitoring (b : browser) (s : session num) : session num :=
  Session (state s) false (VIDEO_STREAM s)
    (events s ++ setTorchStatus b (VIDEO_STREAM s) false ++ [pause; srcObject None]).

(** [toggleMonitoring] of the monitor module (README.md, 152-154): it
    calls [stopMonitoring] or [startMonitoring], neither awaits nor
    returns what the call gives, and returns nothing.  The state is the
    one the call leaves when it has settled; how it settled is
    dropped. *)
Definition toggleMonitoring (b : browser) (s : session num) : session num :=
  if MONITORING s then stopMonitoring b s else (startMonitoring b s).1.

(** [toggleMonitoring] of the app (main.js, 92-94), an [async] function
    with the same body: its own promise is fulfilled whatever becomes
    of the call it made. *)
Definition toggleMonitoring_main (b : browser) (s : session num)
    : session num * settled :=
  (if MONITORING s then stopMonitoring b s else (startMonitoring_main b s).1,
   fulfilled).

(** [monitorLoop] (README.md, 203-208; main.js, 128-133) on the frame
    the browser shows: one tick, and another one asked for while
    [MONITORING]. *)
Definition monitorLoop (tick : monitor num → frame num → completion (monitor num))
    (s : session num) (f : frame num) : completion (session num) :=
  m ← tick (state s) f;
  mret (Session m (MONITORING s) (VIDEO_STREAM s)
          (events s ++ if MONITORING s then [requestAnimationFrame] else [])).

(** The loop for as long as it keeps itself going: it runs on a frame
    when a call of it is pending, and a call is pending after it when it
    asked for one. *)
Fixpoint monitorLoops (tick : monitor num → frame num → completion (monitor num))
    (pending : bool) (s : session num) (frames : list (frame num))
    : completion (session num * bool) :=
  match frames with
  | [] => mret (s, pending)
  | f :: frames =>
      if pending
      then s' ← monitorLoop tick s f; monitorLoops tick (MONITORING s') s' frames
      else mret (s, pending)
  end.

End Session.

(** One pixel of an [ImageData]. *)
Record rgba : Type := RGBA {
  red : byte;
  green : byte;
  blue : byte;
  alpha : byte;
}.

(** ** The design in its own words

    What the specification says of each component, to be compared with
    the functions above. *)

Section Design.
Context {num : Type} `{JSNumber num}.

(** The sample at position [i] when it is a crossing: [i >= 1], the
    sample before it lies above [average] and the sample itself below. *)
Definition crossing_at (samples : list (sample num)) (average : num) (i : nat)
    : option (sample num) :=
  previous ← samples !! (i - 1);
  current ← samples !! i;
  if (1 <=? i) && (value previous > average)%js && (value current < average)%js
  then Some current
  else None.

(** The crossings by position, in the order of the buffer. *)
Definition crossings_by_position (samples : list (sample num)) (average : num)
    : list (sample num) :=
  omap (crossing_at samples average) (seq 0 (length samples)).

(** The loop of [getAverageCrossings], one sample at a time. *)
Fixpoint falls_from (average : num) (previousSample : sample num) (samples : list (sample num))
    : list (sample num) :=
  match samples with
  | [] => []
  | currentSample :: rest =>
      (if (value currentSample < average)%js && (value previousSample > average)%js
       then [currentSample] else [])
      ++ falls_from average currentSample rest
  end.




(** The mean as the analyzer adds it up: left to right, then one
    division. *)
Definition mean (values : list num) : num :=
  match values with
  | [] => js_nan
  | v :: values => (fold_left js_add values v / js_of_nat (S (length values)))%js
  end.

(** The sample a frame contributes under a given sampler. *)
Definition sample_of (sampler : list byte → num) (f : frame num) : sample num :=
  Sample (sampler (pixelData f)) (now f).

(** The pixels of a frame as a list of [byte]s, four to a pixel. *)
Definition imageData (pixels : list rgba) : list byte :=
  p ← pixels; [red p; green p; blue p; alpha p].

(** The intensity of a channel as an integer, and the total of a
    quantity over the pixels. *)
Definition intensity (b : byte) : Z := Z.of_N (Byte.to_N b).

Definition red_green (p : rgba) : Z :=
  (intensity (red p) + intensity (green p))%Z.

Definition red_green_blue (p : rgba) : Z :=
  (intensity (red p) + intensity (green p) + intensity (blue p))%Z.

Definition total (f : rgba → Z) (pixels : list rgba) : Z :=
  foldr (λ p acc, f p + acc)%Z 0%Z pixels.

(** *** Inputs to try the functions on *)

(** A short trace that swings around 0.5, one sample every 400 ms. *)
Definition swing : list (sample num) :=
  [ Sample (js_of_Q 0.75) (js_of_Z 1000); Sample (js_of_Q 0.25) (js_of_Z 1400);
    Sample (js_of_Q 0.75) (js_of_Z 1800); Sample (js_of_Q 0.25) (js_of_Z 2200);
    Sample (js_of_Q 0.75) (js_of_Z 2600); Sample (js_of_Q 0.25) (js_of_Z 3000) ].

(** A trace that alternates between 0.25 and 0.75, one sample every
    16 ms; and a full buffer of it whose last sample repeats the value
    before it. *)
Definition zigzag (n : nat) : list (sample num) :=
  (λ k, Sample (js_of_Q (if Nat.even k then 0.25 else 0.75)%Q)
          (js_of_Z (1000 + 16 * Z.of_nat k)))
  <$> seq 0 n.


(** A 30 x 30 frame of one colour, and a run of frames 16 ms apart
    that all show it. *)
Definition plain_frame (colour : rgba) (t : Z) : frame num :=
  Frame (imageData (replicate (30 * 30) colour)) (js_of_Z t).

Definition still (colour : rgba) (n : nat) : list (frame num) :=
  (λ k, plain_frame colour (1000 + 16 * Z.of_nat k)) <$> seq 0 n.

(** A 30 x 30 frame whose first [n] pixels have one colour and the
    others another. *)
Definition mixed_frame (n : nat) (first others : rgba) (t : Z) : frame num :=
  Frame (imageData (replicate n first ++ replicate (30 * 30 - n) others))
    (js_of_Z t).

End Design.

(** What the design says of the statistics, over exact values. *)

Definition Qc_sum (values : list Qc) : Qc := foldr Qcplus (Q2Qc 0) values.

Definition arithmetic_mean (values : list Qc) : Qc :=
  (Qc_sum values / Qc_of_Z (Z.of_nat (length values)))%Qc.



(** The values of [swing] as exact numbers. *)
Definition swing_values : list Qc :=
  (λ q, Qc_of_Z (Qnum q) / Qc_of_Z (QDen q))%Qc
  <$> [0.75; 0.25; 0.75; 0.25; 0.75; 0.25]%Q.



(** The number a double stands for. *)
Definition exact_value (x : float) : xnum :=
  match Prim2SF x with
  | S754_zero _ => XFin (Q2Qc 0)
  | S754_infinity negative => X.inf negative
  | S754_nan => XNaN
  | S754_finite negative m e =>
      XFin (Q2Qc (inject_Z (if negative then Z.neg m else Z.pos m)
                  * Qpower (inject_Z 2) e))
  end.

Definition exact_sample (s : sample float) : sample xnum :=
  Sample (exact_value (value s)) (exact_value (time s)).

(** [const IMAGE_WIDTH = 30] and [const IMAGE_HEIGHT = 30], the size
    [startMonitoring] gives the sampling canvas. *)
Definition IMAGE_WIDTH : nat := 30.
Definition IMAGE_HEIGHT : nat := 30.


(** *** Doubles that hold integers

    Tests on the machine integers from [z] on, [fuel] of them, or
    [blocks] thousands of them. *)
Definition int_0 : PrimInt63.int := Eval vm_compute in Uint63.of_Z 0.
Definition int_1 : PrimInt63.int := Eval vm_compute in Uint63.of_Z 1.
Definition int_255 : PrimInt63.int := Eval vm_compute in Uint63.of_Z 255.
Definition int_1000 : PrimInt63.int := Eval vm_compute in Uint63.of_Z 1000.

Fixpoint all_from (fuel : nat) (p : PrimInt63.int → bool) (z : PrimInt63.int)
    : bool :=
  match fuel with
  | 0 => true
  | S fuel => p z && all_from fuel p (PrimInt63.add z int_1)
  end.

Fixpoint all_blocks (blocks : nat) (p : PrimInt63.int → bool) (z : PrimInt63.int)
    : bool :=
  match blocks with
  | 0 => true
  | S blocks => all_from 1000 p z && all_blocks blocks p (PrimInt63.add z int_1000)
  end.

(** Adding a byte to the double of [z] gives the double of the sum. *)
Definition adds_bytes_exactly (z : PrimInt63.int) : bool :=
  all_from 256
    (λ b, PrimFloat.Leibniz.eqb (of_uint63 z + of_uint63 b)%float
            (of_uint63 (PrimInt63.add z b)))
    int_0.

(** A total divided by [divisor] and by 255 lies between 0 and 1. *)
Definition normalizes (divisor : float) (total : PrimInt63.int) : bool :=
  let normalized := (of_uint63 total / divisor / of_uint63 int_255)%float in
  (0 <=? normalized)%float && (normalized <=? 1)%float.


(** Samples taken at least [d] ms apart: the time of each is a number
    and lies [d] or more after the time of the sample before it. *)
Definition spaced (d : Qc) (samples : list (sample xnum)) : Prop :=
  ∀ i s s', samples !! i = Some s → samples !! S i = Some s' →
    ∃ t t', time s = XFin t ∧ time s' = XFin t' ∧ (t + d ≤ t')%Qc.

(** A point that lies on the canvas, no nearer than [inset] to its top
    and its bottom. *)
Definition inside (GRAPH_CANVAS : canvas) (inset : Qc) (p : point xnum) : Prop :=
  match p with
  | (XFin x, XFin y) =>
      (0 ≤ x ≤ Qc_of_Z (Z.of_N (width GRAPH_CANVAS)))%Qc
      ∧ (inset ≤ y ≤ Qc_of_Z (Z.of_N (height GRAPH_CANVAS)) - inset)%Qc
  | _ => False
  end.

(** The sample a camera of another gain and offset would have given:
    the value [gain * value + offset] at the same time. *)
Definition rescale (gain offset : Qc) (s : sample xnum) : sample xnum :=
  Sample (XFin gain * value s + XFin offset)%js (time s).

(** *** Browsers to try a session on *)

(** What V8 says when property [p] of [undefined] is read. *)
Definition v8_message (p : string) : string :=
  "Cannot read properties of undefined (reading '" ++ p ++ "')".

(** A browser with no [navigator.mediaDevices]. *)
Definition old_browser : browser :=
  Browser (λ key, bool_decide (key ∈ ["userAgent"; "language"])) None v8_message.

(** A desktop with a microphone and no camera. *)
Definition desktop : browser :=
  Browser (λ key, bool_decide (key ∈ ["userAgent"; "language"; "mediaDevices"]))
    (Some {| enumerateDevices := [Device "audioinput" "microphone"];
             getUserMedia := λ _, inr "NotFoundError" |})
    v8_message.

(** A phone with two cameras, of which the back one, listed last,
    opens. *)
Definition back_camera : MediaStream := Stream ["back camera"].

Definition phone : browser :=
  Browser (λ key, bool_decide (key ∈ ["userAgent"; "language"; "mediaDevices"]))
    (Some {| enumerateDevices := [Device "audioinput" "microphone";
                                  Device "videoinput" "front";
                                  Device "videoinput" "back"];
             getUserMedia := λ id,
               if String.eqb id "back" then inl back_camera
               else inr "NotReadableError" |})
    v8_message.

(** * Properties *)

(** ** The two number types obey the laws *)

Lemma SFcompare_Lt_asym (x y : spec_float) :
  SFcompare x y = Some Lt → SFcompare y x ≠ Some Lt.
Proof.
  destruct x as [s1|s1| |s1 m1 e1], y as [s2|s2| |s2 m2 e2];
    try done; try (by destruct s1); try (by destruct s2);
    try (by destruct s1, s2).
  cbn.
  assert (Pos.compare_cont Eq m2 m1 = CompOpp (Pos.compare_cont Eq m1 m2)) as ->
    by by rw Pos.compare_cont_antisym.
  rw (Z.compare_antisym e1 e2).
  destruct s1, s2; try done;
    destruct (e1 ?= e2)%Z; try done;
    by destruct (Pos.compare_cont Eq m1 m2).
Qed.

Lemma float_lt_asym (x y : float) :
  (x <? y)%float = true → (y <? x)%float = false.
Proof.
  rw !ltb_spec. unfold SFltb. intros Hxy.
  pose proof (SFcompare_Lt_asym (Prim2SF x) (Prim2SF y)) as Hasym.
  destruct (SFcompare (Prim2SF x) (Prim2SF y)) as [[| |]|]; try done.
  by destruct (SFcompare (Prim2SF y) (Prim2SF x)) as [[| |]|]; try done; destruct Hasym.
Qed.

Lemma SFcompare_Lt_trans (x y z : spec_float) :
  SFcompare x y = Some Lt → SFcompare y z = Some Lt → SFcompare x z = Some Lt.
Proof.
  destruct x as [s1|s1| |s1 m1 e1], y as [s2|s2| |s2 m2 e2],
    z as [s3|s3| |s3 m3 e3]; cbn;
    try done; try (by destruct s1, s2); try (by destruct s2, s3);
    try (by destruct s1, s2, s3).
  change (Pos.compare_cont Eq) with Pos.compare.
  destruct s1, s2, s3; try done;
    destruct (Z.compare_spec e1 e2), (Z.compare_spec e2 e3),
      (Z.compare_spec e1 e3); try done; try lia; subst;
    destruct (Pos.compare_spec m1 m2), (Pos.compare_spec m2 m3),
      (Pos.compare_spec m1 m3); try done; try lia.
Qed.

Lemma float_lt_trans (x y z : float) :
  (x <? y)%float = true → (y <? z)%float = true → (x <? z)%float = true.
Proof.
  rw !ltb_spec. unfold SFltb. intros Hxy Hyz.
  pose proof (SFcompare_Lt_trans (Prim2SF x) (Prim2SF y) (Prim2SF z)) as Htrans.
  destruct (SFcompare (Prim2SF x) (Prim2SF y)) as [[| |]|]; try done.
  destruct (SFcompare (Prim2SF y) (Prim2SF z)) as [[| |]|]; try done.
  by rw Htrans.
Qed.

Lemma float_laws : JSNumberLaws float.
Proof. split; [exact float_lt_asym|exact float_lt_trans]. Qed.
Global Existing Instance float_laws.

Lemma xnum_lt_asym (x y : xnum) : X.lt x y = true → X.lt y x = false.
Proof.
  destruct x as [a| | |], y as [b| | |]; try done.
  rw /= bool_decide_eq_true bool_decide_eq_false.
  intros Hab Hba. by apply (Qclt_not_le _ _ Hab), Qclt_le_weak.
Qed.

Lemma xnum_lt_trans (x y z : xnum) :
  X.lt x y = true → X.lt y z = true → X.lt x z = true.
Proof.
  destruct x as [a| | |], y as [b| | |], z as [c| | |]; try done.
  rw /= !bool_decide_eq_true. apply Qclt_trans.
Qed.

Lemma xnum_laws : JSNumberLaws xnum.
Proof. split; [exact xnum_lt_asym|exact xnum_lt_trans]. Qed.
Global Existing Instance xnum_laws.

(** ** The sample buffer *)

Section Buffer.
Context {num : Type} `{JSNumber num}.
Implicit Types (b l : list (sample num)) (s : sample num).

Lemma MAX_SAMPLES_pos : 0 < MAX_SAMPLES.
Proof. unfold MAX_SAMPLES. lia. Qed.

(** One push: the new sample goes last, and a buffer that was full loses
    its first element. *)
Lemma pushSample_drop b s :
  length b ≤ MAX_SAMPLES →
  pushSample b s = drop (length (b ++ [s]) - MAX_SAMPLES) (b ++ [s]).
Proof.
  intros Hb. unfold pushSample.
  rw length_app /=.
  destruct (Nat.ltb_spec MAX_SAMPLES (length b + 1)) as [Hlt|Hle].
  - replace (length b + 1 - MAX_SAMPLES) with 1 by lia.
    by destruct (b ++ [s]).
  - by replace (length b + 1 - MAX_SAMPLES) with 0 by lia.
Qed.

Lemma pushSample_length b s :
  length b ≤ MAX_SAMPLES → length (pushSample b s) ≤ MAX_SAMPLES.
Proof.
  intros Hb. rw pushSample_drop // length_drop length_app /=. lia.
Qed.

Lemma pushSample_nonempty b s : pushSample b s ≠ [].
Proof.
  unfold pushSample. pose proof MAX_SAMPLES_pos as Hpos.
  destruct (Nat.ltb_spec MAX_SAMPLES (length (b ++ [s]))) as [Hlt|Hle].
  - destruct (b ++ [s]) as [|x [|y t]] eqn:E; simpl in *; [lia|lia|done].
  - by destruct b.
Qed.

(** Any run of pushes keeps the last [MAX_SAMPLES] of everything that
    was in the buffer or pushed since. *)
Lemma pushes_drop l b :
  length b ≤ MAX_SAMPLES →
  fold_left pushSample l b = drop (length (b ++ l) - MAX_SAMPLES) (b ++ l).
Proof.
  revert b. induction l as [|s l IH]; intros b Hb.
  - rw /= app_nil_r. by replace (length b - MAX_SAMPLES) with 0 by lia.
  - rw /= IH; [by apply pushSample_length|].
    rw pushSample_drop // (cons_middle s b l) (assoc_L (++)).
    set (d := length (b ++ [s]) - MAX_SAMPLES).
    assert (d ≤ length (b ++ [s])) as Hd by (subst d; lia).
    rw -(drop_app_le _ l) // drop_drop. f_equal.
    rw length_drop. subst d.
    rw !length_app /= in Hd |- *. lia.
Qed.

(** C3. [MAX_SAMPLES + k] pushes ([k >= 1]) into a buffer that was just
    reset leave exactly [MAX_SAMPLES] samples: the last [MAX_SAMPLES]
    pushed, in the order they were pushed. *)
Theorem buffer_keeps_most_recent (k : nat) (pushed b0 : list (sample num)) :
  1 ≤ k →
  length pushed = MAX_SAMPLES + k →
  let b := fold_left pushSample pushed (resetBuffer b0) in
  length b = MAX_SAMPLES ∧ b = drop k pushed.
Proof.
  intros Hk Hlen b. subst b. unfold resetBuffer.
  rw pushes_drop /=; [lia|].
  replace (length pushed - MAX_SAMPLES) with k by lia.
  split; [|done]. rw length_drop. lia.
Qed.

End Buffer.

Lemma buffer_keeps_most_recent_witness :
  let b := fold_left pushSample (zigzag (MAX_SAMPLES + 2) : list (sample float))
             (resetBuffer swing) in
  length b = MAX_SAMPLES ∧ b = drop 2 (zigzag (MAX_SAMPLES + 2)).
Proof.
  apply (buffer_keeps_most_recent 2 (zigzag (MAX_SAMPLES + 2)) swing);
    [lia|reflexivity].
Defined.

(** ** Analysis: faults and crossings *)

Section Analysis.
Context {num : Type} `{JSNumber num}.
Implicit Types (samples rest : list (sample num)) (s : sample num).

(** [analyzeData] on a buffer with a first sample, spelled out. *)
Lemma analyzeData_cons s rest :
  analyzeData (s :: rest)
  = let average := mean (value <$> s :: rest) in
    let mm := fold_left extrema_step (s :: rest) (value s, value s) in
    Normal (DataStats average mm.1 mm.2 (mm.2 - mm.1)%js
              (getAverageCrossings (s :: rest) average)).
Proof.
  unfold analyzeData, mean. cbn [fmap list_fmap Array_reduce mbind completion_bind
    defined lookup list_lookup length].
  rw length_fmap.
  by destruct (fold_left extrema_step (s :: rest) (value s, value s)).
Qed.

Lemma analyzeData_nil : analyzeData (@nil (sample num)) = Throw TypeError.
Proof. done. Qed.

Lemma analyzeData_returns samples :
  samples ≠ [] → ∃ d, analyzeData samples = Normal d.
Proof.
  destruct samples as [|s rest]; [done|]. rw analyzeData_cons. by eexists.
Qed.

Lemma calculateBpm_returns samples : ∃ bpm, calculateBpm samples = Normal bpm.
Proof.
  unfold calculateBpm. destruct (Nat.ltb_spec (length samples) 2) as [Hlt|Hge].
  - by eexists.
  - destruct (lookup_lt_is_Some_2 samples (length samples - 1)) as [last ->]; [lia|].
    destruct (lookup_lt_is_Some_2 samples 0) as [first ->]; [lia|].
    by eexists.
Qed.

Lemma crossing_fold average samples acc previousSample :
  (fold_left (crossing_step average) samples (acc, previousSample)).1
  = acc ++ falls_from average previousSample samples.
Proof.
  revert acc previousSample.
  induction samples as [|c rest IH]; intros acc p; [by rw /= app_nil_r|].
  rw /= IH. case: (_ && _); by rw /= -?app_assoc.
Qed.

Lemma falls_from_positions average before p rest :
  falls_from average p rest
  = omap (crossing_at (before ++ p :: rest) average)
      (seq (S (length before)) (length rest)).
Proof.
  revert before p. induction rest as [|c rest IH]; intros before p; [done|].
  cbn [falls_from length seq omap list_omap].
  rw (IH (before ++ [p]) c) -app_assoc /= length_app /= Nat.add_1_r.
  unfold crossing_at at 2.
  rw /= Nat.sub_0_r.
  assert ((before ++ p :: c :: rest) !! length before = Some p) as ->
    by by apply list_lookup_middle.
  assert ((before ++ p :: c :: rest) !! S (length before) = Some c) as ->.
  { rw (cons_middle p before) (assoc_L (++)).
    apply list_lookup_middle. rw length_app /=. lia. }
  rw /= andb_comm. by case: (_ && _).
Qed.

Lemma getAverageCrossings_cons `{!JSNumberLaws num} s rest average :
  getAverageCrossings (s :: rest) average = falls_from average s rest.
Proof.
  unfold getAverageCrossings. rw /= crossing_fold /=.
  destruct (value s < average)%js eqn:E; [|done].
  by rw (js_lt_asym _ _ E).
Qed.

Lemma getAverageCrossings_positions `{!JSNumberLaws num} samples average :
  getAverageCrossings samples average = crossings_by_position samples average.
Proof.
  destruct samples as [|s rest]; [done|].
  rw getAverageCrossings_cons (falls_from_positions average [] s rest).
  unfold crossings_by_position. cbn [length seq omap list_omap].
  unfold crossing_at at 2. by rw /=.
Qed.

(** *** Ticks *)

Lemma processFrame_pushes cv lineWidth m f :
  ∃ m', processFrame cv lineWidth m f = Normal m'
        ∧ SAMPLE_BUFFER m' = pushSample (SAMPLE_BUFFER m) (sample_of averageBrightness f).
Proof.
  unfold processFrame, sample_of.
  destruct (analyzeData_returns (pushSample (SAMPLE_BUFFER m)
    (Sample (averageBrightness (pixelData f)) (now f)))) as [d ->];
    [apply pushSample_nonempty|].
  cbn [mbind completion_bind].
  destruct (calculateBpm_returns (crossings d)) as [bpm ->]. by eexists.
Qed.

Lemma processFrame_main_pushes cv m f :
  ∃ m', processFrame_main cv m f = Normal m'
        ∧ SAMPLE_BUFFER m' = pushSample (SAMPLE_BUFFER m) (sample_of basicAvgLightness f).
Proof.
  unfold processFrame_main, sample_of.
  destruct (analyzeData_returns (pushSample (SAMPLE_BUFFER m)
    (Sample (basicAvgLightness (pixelData f)) (now f)))) as [d ->];
    [apply pushSample_nonempty|].
  cbn [mbind completion_bind].
  destruct (calculateBpm_returns (crossings d)) as [bpm ->]. by eexists.
Qed.

Lemma ticks_push (tick : monitor num → frame num → completion (monitor num))
    (sampler : list byte → num) :
  (∀ m f, ∃ m', tick m f = Normal m'
                ∧ SAMPLE_BUFFER m' = pushSample (SAMPLE_BUFFER m) (sample_of sampler f)) →
  ∀ frames m,
    ∃ m', ticks tick m frames = Normal m'
          ∧ SAMPLE_BUFFER m'
            = fold_left pushSample (sample_of sampler <$> frames) (SAMPLE_BUFFER m).
Proof.
  intros Htick frames. induction frames as [|f frames IH]; intros m.
  { by exists m. }
  destruct (Htick m f) as (m1 & Hm1 & Hb1).
  destruct (IH m1) as (m' & Hm' & Hb').
  exists m'. by rw /= Hm1 /= Hm' Hb' Hb1.
Qed.

(** *** Extrema, for any numbers that obey the laws *)

Lemma js_lt_irrefl `{!JSNumberLaws num} (x : num) : (x < x)%js = false.
Proof.
  destruct (x < x)%js eqn:E; [|done].
  pose proof (js_lt_asym _ _ E). congruence.
Qed.

Lemma extrema_step_min `{!JSNumberLaws num} lo hi s :
  let lo' := (extrema_step (lo, hi) s).1 in
  (lo' = lo ∨ lo' = value s)
  ∧ (lo < lo')%js = false ∧ (value s < lo')%js = false
  ∧ ∀ v, (v < lo)%js = false → (v < lo')%js = false.
Proof.
  cbn. destruct (value s < lo)%js eqn:E.
  - split_and!; [by right| |..].
    + by apply js_lt_asym.
    + apply js_lt_irrefl.
    + intros v Hv. destruct (v < value s)%js eqn:E'; [|done].
      by rw (js_lt_trans _ _ _ E' E) in Hv.
  - split_and!; [by left| |done|done].
    apply js_lt_irrefl.
Qed.

Lemma extrema_step_max `{!JSNumberLaws num} lo hi s :
  let hi' := (extrema_step (lo, hi) s).2 in
  (hi' = hi ∨ hi' = value s)
  ∧ (hi' < hi)%js = false ∧ (hi' < value s)%js = false
  ∧ ∀ v, (hi < v)%js = false → (hi' < v)%js = false.
Proof.
  cbn. destruct (hi < value s)%js eqn:E.
  - split_and!; [by right| |..].
    + by apply js_lt_asym.
    + apply js_lt_irrefl.
    + intros v Hv. destruct (value s < v)%js eqn:E'; [|done].
      by rw (js_lt_trans _ _ _ E E') in Hv.
  - split_and!; [by left| |done|done].
    apply js_lt_irrefl.
Qed.

(** After the [forEach], no value seen lies below [min] or above [max],
    and each of the two is the value it started from or one of the
    values seen. *)
Lemma extrema_fold `{!JSNumberLaws num} samples lo hi :
  let mm := fold_left extrema_step samples (lo, hi) in
  (mm.1 = lo ∨ mm.1 ∈ value <$> samples)
  ∧ (mm.2 = hi ∨ mm.2 ∈ value <$> samples)
  ∧ (lo < mm.1)%js = false ∧ (mm.2 < hi)%js = false
  ∧ ∀ v, v ∈ value <$> samples → (v < mm.1)%js = false ∧ (mm.2 < v)%js = false.
Proof.
  induction samples as [|s samples IH] using rev_ind.
  { cbn. split_and!; [by left|by left|..].
    - apply js_lt_irrefl.
    - apply js_lt_irrefl.
    - intros v Hv. by apply elem_of_nil in Hv. }
  rw fold_left_app fmap_app /=.
  destruct (fold_left extrema_step samples (lo, hi)) as [lo1 hi1].
  destruct IH as (Hlo & Hhi & Hlo0 & Hhi0 & Hall). cbn [fst snd] in *.
  destruct (extrema_step_min lo1 hi1 s) as (Hm1 & Hm2 & Hm3 & Hm4).
  destruct (extrema_step_max lo1 hi1 s) as (HM1 & HM2 & HM3 & HM4).
  split_and!.
  - destruct Hm1 as [->| ->]; [destruct Hlo; [by left|right]|right];
      rw elem_of_app ?list_elem_of_singleton; auto.
  - destruct HM1 as [->| ->]; [destruct Hhi; [by left|right]|right];
      rw elem_of_app ?list_elem_of_singleton; auto.
  - by apply Hm4.
  - by apply HM4.
  - intros v [Hv| ->%list_elem_of_singleton]%elem_of_app; [|done].
    destruct (Hall v Hv). split; [by apply Hm4|by apply HM4].
Qed.

(** A buffer whose samples all have one value has no crossing, whatever
    average it is compared with. *)
Lemma falls_from_constant `{!JSNumberLaws num} average v previous samples :
  value previous = v →
  Forall (λ s, value s = v) samples →
  falls_from average previous samples = [].
Proof.
  intros Hp Hall. revert previous Hp.
  induction Hall as [|s samples Hs Hall IH]; intros previous Hp; [done|].
  rw /= Hp Hs (IH s Hs).
  destruct (v < average)%js eqn:E; [|done]. by rw (js_lt_asym _ _ E).
Qed.

(** Whatever the numbers: the crossing list holds exactly the samples
    at the positions [i >= 1] whose predecessor lies strictly above the
    average and which lie strictly below it themselves, in the order of
    the buffer; the average [analyzeData] passes is the mean as it adds
    it up; and a buffer of one sample has no crossing. *)
Lemma crossings_of_the_computed_mean `{!JSNumberLaws num} samples :
  (∀ average,
     getAverageCrossings samples average = crossings_by_position samples average)
  ∧ (∀ d, analyzeData samples = Normal d →
       average d = mean (value <$> samples)
       ∧ crossings d = crossings_by_position samples (mean (value <$> samples)))
  ∧ (length samples = 1 →
       ∀ average, getAverageCrossings samples average = []).
Proof.
  split_and!.
  - intros average. apply getAverageCrossings_positions.
  - intros d. destruct samples as [|s rest]; [done|].
    rw analyzeData_cons. intros [= <-].
    by rw /= -getAverageCrossings_positions.
  - intros Hlen average. destruct samples as [|s [|??]]; [done| |done].
    by rw getAverageCrossings_cons.
Qed.

Lemma calculateBpm_short samples :
  length samples < 2 → calculateBpm samples = Normal None.
Proof.
  intros Hlt. unfold calculateBpm.
  destruct (Nat.ltb_spec (length samples) 2); [done|lia].
Qed.

Lemma calculateBpm_first_last samples first final :
  2 ≤ length samples → head samples = Some first → last samples = Some final →
  calculateBpm samples
  = Normal (Some (js_of_Z 60000
                  / ((time final - time first)
                     / (js_of_nat (length samples) - js_of_Z 1)))%js).
Proof.
  intros Hge Hfirst Hfinal. unfold calculateBpm.
  destruct (Nat.ltb_spec (length samples) 2); [lia|].
  rw head_lookup in Hfirst. rw last_lookup in Hfinal.
  by rw -Nat.sub_1_r in Hfinal; rw Hfinal Hfirst.
Qed.

(** C2. Fewer than two crossings: [calculateBpm] returns [undefined],
    neither a number nor a fault.  Two or more: 60000 over the mean
    interval, the time from the first crossing to the last divided by
    their number less one. *)
Theorem calculateBpm_mean_interval samples :
  (length samples < 2 → calculateBpm samples = Normal None)
  ∧ (∀ first final,
       2 ≤ length samples → head samples = Some first → last samples = Some final →
       calculateBpm samples
       = Normal (Some (js_of_Z 60000
                       / ((time final - time first)
                          / (js_of_nat (length samples) - js_of_Z 1)))%js)).
Proof.
  split; [apply calculateBpm_short|].
  intros first final. apply calculateBpm_first_last.
Qed.

(** C6, as the code has it.  On the empty buffer [analyzeData] throws:
    [reduce] has nothing to start from.  On any other buffer it returns,
    and a tick analyses the buffer right after a push, so no tick of
    either file throws. *)
Theorem analyzeData_throws_only_on_empty :
  analyzeData (@nil (sample num)) = Throw TypeError
  ∧ (∀ s rest, ∃ d, analyzeData (s :: rest) = Normal d)
  ∧ (∀ cv lineWidth m f, ∃ m', processFrame cv lineWidth m f = Normal m')
  ∧ (∀ cv m f, ∃ m', processFrame_main cv m f = Normal m').
Proof.
  split_and!.
  - apply analyzeData_nil.
  - intros s rest. by apply analyzeData_returns.
  - intros cv lw m f. destruct (processFrame_pushes cv lw m f) as (m' & -> & _).
    by eexists.
  - intros cv m f. destruct (processFrame_main_pushes cv m f) as (m' & -> & _).
    by eexists.
Qed.

(** C9. Reset, any pushes, reset again: the buffer is the empty buffer
    the module starts with, and whatever is pushed next fills it as it
    would fill a new one.  The same through the ticks of the monitor
    module that do the pushing. *)
Theorem reset_pushes_reset (b0 pushed : list (sample num))
    cv lineWidth (m : monitor num) frames :
  (let b := resetBuffer (fold_left pushSample pushed (resetBuffer b0)) in
   b = SAMPLE_BUFFER initial
   ∧ ∀ later, fold_left pushSample later b
              = fold_left pushSample later (SAMPLE_BUFFER initial))
  ∧ (∃ m', ticks (processFrame cv lineWidth) (reset m) frames = Normal m'
           ∧ SAMPLE_BUFFER m'
             = fold_left pushSample (sample_of averageBrightness <$> frames) []
           ∧ SAMPLE_BUFFER (reset m') = SAMPLE_BUFFER initial).
Proof.
  split; [done|].
  destruct (ticks_push _ _ (processFrame_pushes cv lineWidth) frames (reset m))
    as (m' & Hm' & Hb).
  by exists m'.
Qed.

(** X1. Ticks, from a reset state: no tick of either file throws, and
    the buffer ends up holding the samples of the last [MAX_SAMPLES]
    frames, in order. *)
Theorem ticks_fill_the_buffer cv lineWidth (m : monitor num) frames :
  (∃ m', ticks (processFrame cv lineWidth) (reset m) frames = Normal m'
         ∧ SAMPLE_BUFFER m'
           = drop (length frames - MAX_SAMPLES) (sample_of averageBrightness <$> frames))
  ∧ (∃ m', ticks (processFrame_main cv) (reset m) frames = Normal m'
           ∧ SAMPLE_BUFFER m'
             = drop (length frames - MAX_SAMPLES) (sample_of basicAvgLightness <$> frames)).
Proof.
  split.
  - destruct (ticks_push _ _ (processFrame_pushes cv lineWidth) frames (reset m))
      as (m' & Hm' & Hb).
    exists m'. split; [done|]. rw Hb pushes_drop /=; [lia|]. by rw length_fmap.
  - destruct (ticks_push _ _ (processFrame_main_pushes cv) frames (reset m))
      as (m' & Hm' & Hb).
    exists m'. split; [done|]. rw Hb pushes_drop /=; [lia|]. by rw length_fmap.
Qed.

(** X2. Whatever the numbers (doubles included): on a buffer that is not
    empty [min] and [max] are values of samples, and no sample lies
    below [min] or above [max]. *)
Theorem extrema_are_sample_values `{!JSNumberLaws num} s rest :
  ∃ d, analyzeData (s :: rest) = Normal d
       ∧ min d ∈ value <$> s :: rest
       ∧ max d ∈ value <$> s :: rest
       ∧ ∀ v, v ∈ value <$> s :: rest →
              (v < min d)%js = false ∧ (max d < v)%js = false.
Proof.
  rw analyzeData_cons. eexists. split; [done|]. cbn [min max].
  destruct (extrema_fold (s :: rest) (value s) (value s))
    as (Hlo & Hhi & _ & _ & Hall).
  split_and!; [| |done].
  - destruct Hlo as [->|?]; [by left|done].
  - destruct Hhi as [->|?]; [by left|done].
Qed.

(** X3. A buffer whose samples all have the same value, a buffer of one
    sample among them, has no crossing, and so gives no rate. *)
Theorem constant_buffer_has_no_crossing `{!JSNumberLaws num} v s rest :
  Forall (λ s, value s = v) (s :: rest) →
  ∃ d, analyzeData (s :: rest) = Normal d
       ∧ crossings d = []
       ∧ calculateBpm (crossings d) = Normal None.
Proof.
  intros [Hs Hrest]%Forall_cons.
  rw analyzeData_cons. eexists. split; [done|]. cbn [crossings].
  by rw getAverageCrossings_cons (falls_from_constant _ v).
Qed.

End Analysis.

Lemma extrema_are_sample_values_witness :
  ∃ d, analyzeData (swing : list (sample float)) = Normal d
       ∧ min d ∈ value <$> (swing : list (sample float))
       ∧ max d ∈ value <$> (swing : list (sample float))
       ∧ ∀ v, v ∈ value <$> (swing : list (sample float)) →
              (v < min d)%js = false ∧ (max d < v)%js = false.
Proof.
  destruct (swing : list (sample float)) as [|s rest] eqn:E; [done|].
  apply (extrema_are_sample_values (num := float)).
Defined.

Lemma constant_buffer_has_no_crossing_witness :
  ∃ d, analyzeData [Sample (js_of_Z 1 / js_of_Z 10)%js (js_of_Z 1000 : float)]
       = Normal d
       ∧ crossings d = []
       ∧ calculateBpm (crossings d) = Normal None.
Proof.
  apply (constant_buffer_has_no_crossing (js_of_Z 1 / js_of_Z 10)%js).
  by repeat constructor.
Defined.

Lemma calculateBpm_mean_interval_witness :
  calculateBpm (take 1 (swing : list (sample float))) = Normal None
  ∧ calculateBpm (getAverageCrossings (swing : list (sample float)) (js_of_Q 0.5))
    = Normal (Some (js_of_Z 75)).
Proof.
  split.
  - apply (calculateBpm_mean_interval (num := float)). vm_compute. lia.
  - etrans; [eapply (calculateBpm_mean_interval (num := float));
             [vm_compute; lia|reflexivity|reflexivity]|].
    vm_compute. reflexivity.
Defined.

(** The claim C6 makes does not hold: analysing the empty buffer
    throws. *)
Lemma analyzeData_empty_throws :
  analyzeData (@nil (sample float)) = Throw TypeError.
Proof. reflexivity. Qed.

(** ** Brightness *)

Section Sampling.
Context {num : Type} `{JSNumber num}.
Implicit Types (pixels before after : list rgba) (p : rgba).

Lemma imageData_app before after :
  imageData (before ++ after) = imageData before ++ imageData after.
Proof. apply bind_app. Qed.

Lemma imageData_length pixels : length (imageData pixels) = 4 * length pixels.
Proof.
  induction pixels as [|p pixels IH]; [done|].
  change (imageData (p :: pixels)) with ([red p; green p; blue p; alpha p] ++ imageData pixels).
  rw length_app IH /=. lia.
Qed.

Lemma for_step4_pixels n : for_step4 (4 * n) = (λ k, 4 * k) <$> seq 0 n.
Proof.
  unfold for_step4. do 2 f_equal.
  rw (Nat.mul_comm 4 n) Nat.div_add_l //.
Qed.

(** The four bytes of the pixel at position [length before]. *)
Lemma channel_pixel before p after (k : nat) :
  channel (num := num) (imageData (before ++ p :: after)) (4 * length before + k)
  = match [red p; green p; blue p; alpha p] !! k with
    | Some b => js_of_Z (intensity b)
    | None => channel (imageData after) (k - 4)
    end.
Proof.
  unfold channel.
  rw imageData_app lookup_app_r imageData_length; [lia|].
  replace (4 * length before + k - 4 * length before) with k by lia.
  change (imageData (p :: after)) with ([red p; green p; blue p; alpha p] ++ imageData after).
  do 4 (destruct k as [|k]; [done|]). by rw /= Nat.sub_0_r.
Qed.

(** The loop of [averageBrightness] adds the red and the green of every
    pixel, in order. *)
Lemma averageBrightness_loop before rest (sum : num) :
  fold_left
    (λ sum i, sum + channel (imageData (before ++ rest)) i
              + channel (imageData (before ++ rest)) (i + 1))%js
    ((λ k, 4 * k) <$> seq (length before) (length rest)) sum
  = fold_left (λ sum p, sum + js_of_Z (intensity (red p))
                        + js_of_Z (intensity (green p)))%js rest sum.
Proof.
  revert before sum. induction rest as [|p rest IH]; intros before sum; [done|].
  cbn [length seq fmap list_fmap fold_left].
  rw -(Nat.add_0_r (4 * length before))
     -(Nat.add_assoc (4 * length before) 0 1) !channel_pixel /=.
  specialize (IH (before ++ [p])).
  rw -app_assoc length_app /= Nat.add_1_r in IH. apply IH.
Qed.

(** The loop of [basicAvgLightness] adds the blue as well. *)
Lemma basicAvgLightness_loop before rest (sum : num) :
  fold_left
    (λ sum i, sum + channel (imageData (before ++ rest)) i
              + channel (imageData (before ++ rest)) (i + 1)
              + channel (imageData (before ++ rest)) (i + 2))%js
    ((λ k, 4 * k) <$> seq (length before) (length rest)) sum
  = fold_left (λ sum p, sum + js_of_Z (intensity (red p))
                        + js_of_Z (intensity (green p))
                        + js_of_Z (intensity (blue p)))%js rest sum.
Proof.
  revert before sum. induction rest as [|p rest IH]; intros before sum; [done|].
  cbn [length seq fmap list_fmap fold_left].
  rw -(Nat.add_0_r (4 * length before))
     -(Nat.add_assoc (4 * length before) 0 1)
     -(Nat.add_assoc (4 * length before) 0 2) !channel_pixel /=.
  specialize (IH (before ++ [p])).
  rw -app_assoc length_app /= Nat.add_1_r in IH. apply IH.
Qed.

End Sampling.

(** ** Exact arithmetic *)

Section Exact.
Local Open Scope Qc_scope.
Implicit Types (a b q : Qc) (pixels : list rgba).

Lemma js_of_Z_exact (z : Z) : js_of_Z z = XFin (Qc_of_Z z).
Proof. done. Qed.

Lemma XFin_add a b : (XFin a + XFin b)%js = XFin (a + b).
Proof. done. Qed.

Lemma XFin_sub a b : (XFin a - XFin b)%js = XFin (a - b).
Proof. done. Qed.

Lemma XFin_mul a b : (XFin a * XFin b)%js = XFin (a * b).
Proof. done. Qed.

Lemma XFin_div a b : b ≠ 0 → (XFin a / XFin b)%js = XFin (a / b).
Proof. intros Hb. by rw /= /X.div bool_decide_eq_false_2. Qed.

Lemma Qc_of_nat_pos (n : nat) : (0 < n)%nat → 0 < Qc_of_Z (Z.of_nat n).
Proof. intros Hn. rw -Z2Qc_inj_0 -Z2Qc_inj_lt. lia. Qed.

Lemma Qc_pos_ne0 b : 0 < b → b ≠ 0.
Proof. intros Hb E. apply (Qclt_not_eq _ _ Hb). by rw E. Qed.

Lemma Qcmult_ne0 a b : a ≠ 0 → b ≠ 0 → a * b ≠ 0.
Proof. intros Ha Hb E. by destruct (Qcmult_integral _ _ E). Qed.

Lemma Qcdiv_le_1 a b : 0 < b → 0 ≤ a → a ≤ b → 0 ≤ a / b ≤ 1.
Proof.
  intros Hb Ha Hab.
  assert (b ≠ 0) as Hb0 by by apply Qc_pos_ne0.
  split.
  - apply Qcmult_nonneg_nonneg; [done|]. by apply Qclt_le_weak, Qcinv_pos.
  - apply (Qcmult_le_mono_pos_r _ _ b); [done|].
    replace (a / b * b) with a by (field; done). by rw Qcmult_1_l.
Qed.

Lemma intensity_range (c : byte) : (0 ≤ intensity c ≤ 255)%Z.
Proof. unfold intensity. pose proof (Byte.to_N_bounded c). lia. Qed.

Lemma total_red_green_range pixels :
  (0 ≤ total red_green pixels
     ≤ Z.of_nat (length pixels) * 2 * 255)%Z.
Proof.
  induction pixels as [|p pixels IH]; [done|].
  pose proof (intensity_range (red p)). pose proof (intensity_range (green p)).
  rw /= /red_green in IH |- *. lia.
Qed.

Lemma sum_red_green_exact pixels (z : Z) :
  fold_left (λ sum p, sum + js_of_Z (intensity (red p))
                      + js_of_Z (intensity (green p)))%js
    pixels (XFin (Qc_of_Z z))
  = XFin (Qc_of_Z (z + total red_green pixels)).
Proof.
  revert z. induction pixels as [|p pixels IH]; intros z; [by rw /= Z.add_0_r|].
  rw /= /X.add -!Z2Qc_inj_add IH. do 2 f_equal. rw /red_green /red_green_blue. lia.
Qed.

Lemma sum_red_green_blue_exact pixels (z : Z) :
  fold_left (λ sum p, sum + js_of_Z (intensity (red p))
                      + js_of_Z (intensity (green p))
                      + js_of_Z (intensity (blue p)))%js
    pixels (XFin (Qc_of_Z z))
  = XFin (Qc_of_Z (z + total red_green_blue pixels)).
Proof.
  revert z. induction pixels as [|p pixels IH]; intros z; [by rw /= Z.add_0_r|].
  rw /= /X.add -!Z2Qc_inj_add IH. do 2 f_equal. rw /red_green /red_green_blue. lia.
Qed.

Lemma total_red_green_blue_range pixels :
  (0 ≤ total red_green_blue pixels ≤ Z.of_nat (length pixels) * 3 * 255)%Z.
Proof.
  induction pixels as [|p pixels IH]; [done|].
  pose proof (intensity_range (red p)). pose proof (intensity_range (green p)).
  pose proof (intensity_range (blue p)).
  rw /= /red_green_blue in IH |- *. lia.
Qed.

Lemma averageBrightness_exact pixels :
  pixels ≠ [] →
  averageBrightness (imageData pixels)
  = XFin (Qc_of_Z (total red_green pixels)
          / (Qc_of_Z (Z.of_nat (length pixels)) * Qc_of_Z 2 * Qc_of_Z 255)).
Proof.
  intros Hne. set (totalPixels := Qc_of_Z (Z.of_nat (length pixels))).
  assert (totalPixels ≠ 0) as Htot0.
  { apply Qc_pos_ne0, Qc_of_nat_pos. destruct pixels; [done|]. rw /=. lia. }
  unfold averageBrightness.
  rw imageData_length for_step4_pixels (averageBrightness_loop [] pixels).
  change (js_of_Z 0) with (XFin (Qc_of_Z 0)).
  rw sum_red_green_exact Z.add_0_l.
  unfold js_of_nat, js_of_Q.
  rw !js_of_Z_exact Nat2Z.inj_mul Z2Qc_inj_mul -/totalPixels.
  assert (Qc_of_Z 2 ≠ 0 ∧ Qc_of_Z 5 ≠ 0 ∧ Qc_of_Z 255 ≠ 0) as (H2 & H5 & H255) by done.
  assert (Qc_of_Z (Z.of_nat 4) = Qc_of_Z 2 * Qc_of_Z 2) as -> by by apply Qc_is_canon.
  assert (Qc_of_Z (Qnum 0.5) = Qc_of_Z 5) as -> by done.
  assert (Qc_of_Z (QDen 0.5) = Qc_of_Z 2 * Qc_of_Z 5) as -> by by apply Qc_is_canon.
  rw (XFin_div (Qc_of_Z 5)); [by apply Qcmult_ne0|].
  rw XFin_mul.
  assert (Qc_of_Z 2 * Qc_of_Z 2 * totalPixels * (Qc_of_Z 5 / (Qc_of_Z 2 * Qc_of_Z 5))
          = totalPixels * Qc_of_Z 2) as -> by (field; done).
  rw XFin_div; [by apply Qcmult_ne0|]. rw XFin_div; [done|].
  f_equal. field. done.
Qed.

Lemma basicAvgLightness_exact pixels :
  pixels ≠ [] →
  basicAvgLightness (imageData pixels)
  = XFin (Qc_of_Z (total red_green_blue pixels)
          / (Qc_of_Z (Z.of_nat (length pixels)) * Qc_of_Z 3 * Qc_of_Z 255)).
Proof.
  intros Hne. set (totalPixels := Qc_of_Z (Z.of_nat (length pixels))).
  assert (totalPixels ≠ 0) as Htot0.
  { apply Qc_pos_ne0, Qc_of_nat_pos. destruct pixels; [done|]. rw /=. lia. }
  unfold basicAvgLightness.
  rw imageData_length for_step4_pixels (basicAvgLightness_loop [] pixels).
  change (js_of_Z 0) with (XFin (Qc_of_Z 0)).
  rw sum_red_green_blue_exact Z.add_0_l.
  unfold js_of_nat, js_of_Q.
  rw !js_of_Z_exact Nat2Z.inj_mul Z2Qc_inj_mul -/totalPixels.
  assert (Qc_of_Z 3 ≠ 0 ∧ Qc_of_Z 4 ≠ 0 ∧ Qc_of_Z 25 ≠ 0 ∧ Qc_of_Z 255 ≠ 0)
    as (H3 & H4 & H25 & H255) by done.
  assert (Qc_of_Z (Z.of_nat 4) = Qc_of_Z 4) as -> by done.
  assert (Qc_of_Z (Qnum 0.75) = Qc_of_Z 3 * Qc_of_Z 25) as -> by by apply Qc_is_canon.
  assert (Qc_of_Z (QDen 0.75) = Qc_of_Z 4 * Qc_of_Z 25) as -> by by apply Qc_is_canon.
  rw (XFin_div (Qc_of_Z 3 * Qc_of_Z 25)); [by apply Qcmult_ne0|].
  rw XFin_mul.
  assert (Qc_of_Z 4 * totalPixels
          * (Qc_of_Z 3 * Qc_of_Z 25 / (Qc_of_Z 4 * Qc_of_Z 25))
          = totalPixels * Qc_of_Z 3) as -> by (field; done).
  rw XFin_div; [by apply Qcmult_ne0|]. rw XFin_div; [done|].
  f_equal. field. done.
Qed.

(** Over exact values, for a frame of [W * H >= 1] pixels:
    [averageBrightness] of the monitor module is the sum of the red and
    green intensities of all pixels over [totalPixels * 2 * 255] (blue
    and alpha play no part), a number between 0 and 1.  The sampler of
    the app, [basicAvgLightness], adds the blue as well and divides by
    [totalPixels * 3 * 255]; it too lies between 0 and 1. *)
Lemma samplers_average_exactly (W H : nat) pixels :
  length pixels = (W * H)%nat →
  (1 ≤ W * H)%nat →
  let totalPixels := Qc_of_Z (Z.of_nat (W * H)) in
  let sumRG := Qc_of_Z (total red_green pixels) in
  let sumRGB := Qc_of_Z (total red_green_blue pixels) in
  (averageBrightness (imageData pixels)
   = XFin (sumRG / (totalPixels * Qc_of_Z 2 * Qc_of_Z 255))
   ∧ 0 ≤ sumRG / (totalPixels * Qc_of_Z 2 * Qc_of_Z 255) ≤ 1)
  ∧ (basicAvgLightness (imageData pixels)
     = XFin (sumRGB / (totalPixels * Qc_of_Z 3 * Qc_of_Z 255))
     ∧ 0 ≤ sumRGB / (totalPixels * Qc_of_Z 3 * Qc_of_Z 255) ≤ 1).
Proof.
  intros Hlen Hpos totalPixels sumRG sumRGB.
  assert (pixels ≠ []) as Hne by (intros ->; simpl in Hlen; lia).
  assert (0 < totalPixels) as Htot by (apply Qc_of_nat_pos; lia).
  subst totalPixels sumRG sumRGB. rw -Hlen in Htot |- *.
  split; (split; [by auto using averageBrightness_exact, basicAvgLightness_exact|]).
  - apply Qcdiv_le_1.
    + repeat apply Qcmult_pos_pos; try done.
    + rw -Z2Qc_inj_0 -Z2Qc_inj_le. apply total_red_green_range.
    + rw -!Z2Qc_inj_mul -Z2Qc_inj_le. apply total_red_green_range.
  - apply Qcdiv_le_1.
    + repeat apply Qcmult_pos_pos; try done.
    + rw -Z2Qc_inj_0 -Z2Qc_inj_le. apply total_red_green_blue_range.
    + rw -!Z2Qc_inj_mul -Z2Qc_inj_le. apply total_red_green_blue_range.
Qed.

(** *** The statistics *)

Lemma sum_values_exact (values : list Qc) a :
  fold_left js_add (XFin <$> values) (XFin a) = XFin (a + Qc_sum values).
Proof.
  revert a. induction values as [|v values IH]; intros a; [by rw /= Qcplus_0_r|].
  by rw /= IH Qcplus_assoc.
Qed.

Lemma mean_exact (values : list Qc) :
  values ≠ [] → mean (XFin <$> values) = XFin (arithmetic_mean values).
Proof.
  destruct values as [|v values]; [done|]. intros _.
  change (mean (XFin <$> v :: values))
    with (fold_left js_add (XFin <$> values) (XFin v)
          / js_of_nat (S (length (XFin <$> values))))%js.
  rw sum_values_exact length_fmap /js_of_nat js_of_Z_exact XFin_div //.
Qed.

(** The [forEach] of [analyzeData] keeps the least and the greatest of
    what it started from and what it has seen. *)
Lemma extrema_exact (samples : list (sample xnum)) (values : list Qc) lo hi :
  value <$> samples = XFin <$> values →
  ∃ lo' hi',
    fold_left extrema_step samples (XFin lo, XFin hi) = (XFin lo', XFin hi')
    ∧ lo' ≤ lo ∧ hi ≤ hi'
    ∧ (∀ v, v ∈ values → lo' ≤ v ≤ hi')
    ∧ (lo' = lo ∨ lo' ∈ values) ∧ (hi' = hi ∨ hi' ∈ values).
Proof.
  revert values lo hi.
  induction samples as [|s samples IH]; intros [|v values] lo hi Hv; try done.
  { exists lo, hi. split_and!;
      [done|reflexivity|reflexivity| |by left|by left].
    intros v Hin. by apply elem_of_nil in Hin. }
  injection Hv as Hs Hv.
  cbn [fold_left extrema_step]. rw Hs /= /X.lt.
  set (hi1 := if bool_decide (hi < v) then v else hi).
  set (lo1 := if bool_decide (v < lo) then v else lo).
  assert ((if bool_decide (hi < v) then XFin v else XFin hi) = XFin hi1) as ->
    by (subst hi1; by case_bool_decide).
  assert ((if bool_decide (v < lo) then XFin v else XFin lo) = XFin lo1) as ->
    by (subst lo1; by case_bool_decide).
  assert (lo1 ≤ lo ∧ lo1 ≤ v ∧ (lo1 = lo ∨ lo1 = v)) as (Hl1 & Hl2 & Hl3).
  { subst lo1. case_bool_decide as Hc; split_and!; auto using Qclt_le_weak.
    by apply Qcnot_lt_le. }
  assert (hi ≤ hi1 ∧ v ≤ hi1 ∧ (hi1 = hi ∨ hi1 = v)) as (Hh1 & Hh2 & Hh3).
  { subst hi1. case_bool_decide as Hc; split_and!; auto using Qclt_le_weak.
    by apply Qcnot_lt_le. }
  destruct (IH values lo1 hi1 Hv) as (lo' & hi' & -> & Hlo & Hhi & Hall & Hinl & Hinh).
  exists lo', hi'. split_and!; try done.
  - by etrans.
  - by etrans.
  - intros w [->|Hw]%elem_of_cons; [|by apply Hall].
    split; by etrans.
  - destruct Hinl as [->|?]; [destruct Hl3 as [->| ->]|];
      rw ?elem_of_cons; auto.
  - destruct Hinh as [->|?]; [destruct Hh3 as [->| ->]|];
      rw ?elem_of_cons; auto.
Qed.





(** *** The rate *)


End Exact.


(** ** The graph *)

Section Graph.
Context {num : Type} `{JSNumber num}.
Implicit Types (samples : list (sample num)) (xOf : nat → num)
  (yOf : sample num → num).

(** The path takes its points from the samples, in order. *)
Lemma lineTos_sublist xOf yOf i previousY samples :
  lineTos xOf yOf i previousY samples
  `sublist_of` imap (λ k s, (xOf (i + k), yOf s)) samples.
Proof.
  revert i previousY.
  induction samples as [|s samples IH]; intros i previousY; [done|].
  rw /= Nat.add_0_r.
  assert (imap ((λ k s, (xOf (i + k), yOf s)) ∘ S) samples
          = imap (λ k s, (xOf (S i + k), yOf s)) samples) as ->.
  { apply imap_ext. intros k s' _. by rw /= Nat.add_succ_r. }
  destruct (yOf s != previousY)%js; [apply sublist_skip|apply sublist_cons]; apply IH.
Qed.








End Graph.

Section ExactGraph.
Local Open Scope Qc_scope.
Implicit Types (cv : canvas) (samples : list (sample xnum))
  (yOf : sample xnum → xnum).

Lemma Qc_MAX_SAMPLES_pos : 0 < Qc_of_Z (Z.of_nat MAX_SAMPLES).
Proof. apply Qc_of_nat_pos, MAX_SAMPLES_pos. Qed.

Lemma graph_x_exact cv samples (i : nat) :
  graph_x cv samples i
  = let xScale := Qc_of_Z (Z.of_N (width cv)) / Qc_of_Z (Z.of_nat MAX_SAMPLES) in
    XFin (xScale * Qc_of_Z (Z.of_nat i)
          + (Qc_of_Z (Z.of_nat MAX_SAMPLES) - Qc_of_Z (Z.of_nat (length samples)))
            * xScale).
Proof.
  unfold graph_x, js_of_nat. rw !js_of_Z_exact.
  rw XFin_div; [apply Qc_pos_ne0, Qc_MAX_SAMPLES_pos|].
  by rw XFin_sub !XFin_mul XFin_add.
Qed.







(** *** A flat signal *)

Lemma lineTos_all_NaN (xOf : nat → xnum) yOf (i : nat) previousY samples :
  Forall (λ s, yOf s = XNaN) samples →
  lineTos xOf yOf i previousY samples
  = imap (λ k _, (xOf (i + k)%nat, XNaN)) samples.
Proof.
  intros Hall. revert i previousY.
  induction Hall as [|s samples Hs Hall IH]; intros i previousY; [done|].
  rw /= Hs IH Nat.add_0_r /=. f_equal.
  apply imap_ext. intros k s' _. by rw /= Nat.add_succ_r.
Qed.

Lemma graph_y_flat cv (lineWidth v : Qc) (d : dataStats xnum) (s : sample xnum) :
  min d = XFin v → max d = XFin v → value s = XFin v → v ≠ 0 →
  graph_y cv (XFin lineWidth) d s = XNaN.
Proof.
  intros Hmin Hmax Hs Hv. unfold graph_y.
  rw Hmin Hmax Hs !js_of_Z_exact.
  assert ((XFin v != XFin (Qc_of_Z 0))%js = true) as ->.
  { rw /= /X.eq. apply negb_true_iff, bool_decide_eq_false.
    intros [= ->]. apply Hv, Z2Qc_inj_0. }
  cbn [js_sub js_mul js_div js_add xnum_number X.sub X.mul X.add X.opp].
  rw Qcplus_opp_r Qcmult_0_r.
  by rw /X.div !bool_decide_eq_true_2.
Qed.

Lemma graph_y_main_flat cv (v : Qc) (d : dataStats xnum) (s : sample xnum) :
  min d = XFin v → max d = XFin v → value s = XFin v →
  graph_y_main cv d s = XNaN.
Proof.
  intros Hmin Hmax Hs. unfold graph_y_main.
  rw Hmin Hmax Hs !js_of_Z_exact.
  cbn [js_sub js_mul js_div js_add xnum_number X.sub X.mul X.add X.opp].
  rw Qcplus_opp_r Qcmult_0_r.
  by rw /X.div !bool_decide_eq_true_2.
Qed.

(** X4. A flat signal, over exact values: [min = max], the range is 0,
    and [y] is [0 / 0].  The app draws every sample at [y = NaN]; so does
    the monitor module unless the value is 0. *)
Theorem flat_signal_has_no_height cv (lineWidth v : Qc) s rest :
  Forall (λ s, value s = XFin v) (s :: rest) →
  ∃ d, analyzeData (s :: rest) = Normal d
       ∧ min d = XFin v ∧ max d = XFin v ∧ range d = XFin 0
       ∧ (v ≠ 0 →
          drawGraph cv (XFin lineWidth) (s :: rest) d
          = imap (λ i _, (graph_x cv (s :: rest) i, XNaN)) (s :: rest))
       ∧ drawGraph_main cv (s :: rest) d
         = imap (λ i _, (graph_x cv (s :: rest) i, XNaN)) (s :: rest).
Proof.
  intros Hall. pose proof Hall as [Hs _]%Forall_cons.
  assert (∀ x, x ∈ value <$> s :: rest → x = XFin v) as Hval.
  { intros x (s' & -> & Hs')%list_elem_of_fmap.
    by apply (proj1 (Forall_forall _ _) Hall). }
  rw analyzeData_cons. eexists. split; [done|]. cbn [min max range].
  destruct (extrema_fold (s :: rest) (value s) (value s))
    as (Hlo & Hhi & _). 
  destruct (fold_left extrema_step (s :: rest) (value s, value s)) as [lo hi].
  cbn [fst snd] in *.
  assert (lo = XFin v) as -> by (destruct Hlo as [->|?]; auto).
  assert (hi = XFin v) as -> by (destruct Hhi as [->|?]; auto).
  split_and!; [done|done|by rw XFin_sub /Qcminus Qcplus_opp_r| |].
  - intros Hv. unfold drawGraph. rw lineTos_all_NaN //.
    apply Forall_forall. intros s' Hs'. apply (graph_y_flat _ _ v); try done.
    by apply (proj1 (Forall_forall _ _) Hall).
  - unfold drawGraph_main. rw lineTos_all_NaN //.
    apply Forall_forall. intros s' Hs'. apply (graph_y_main_flat _ v); try done.
    by apply (proj1 (Forall_forall _ _) Hall).
Qed.

Lemma flat_signal_has_no_height_witness :
  ∃ d, analyzeData [Sample (XFin (Qc_of_Z 1)) (XFin (Qc_of_Z 1000));
                    Sample (XFin (Qc_of_Z 1)) (XFin (Qc_of_Z 1016))]
       = Normal d
       ∧ range d = XFin 0
       ∧ snd <$> drawGraph (Canvas 300 150) (XFin (Qc_of_Z 6))
                   [Sample (XFin (Qc_of_Z 1)) (XFin (Qc_of_Z 1000));
                    Sample (XFin (Qc_of_Z 1)) (XFin (Qc_of_Z 1016))] d
         = [XNaN; XNaN].
Proof.
  destruct (flat_signal_has_no_height (Canvas 300 150) (Qc_of_Z 6) (Qc_of_Z 1)
    (Sample (XFin (Qc_of_Z 1)) (XFin (Qc_of_Z 1000)))
    [Sample (XFin (Qc_of_Z 1)) (XFin (Qc_of_Z 1016))])
    as (d & Hd & _ & _ & Hrange & Hdraw & _); [by repeat constructor|].
  exists d. split_and!; [done|done|]. by rw Hdraw.
Defined.

End ExactGraph.

(** ** What the doubles do *)


(** C4 on a flat signal.  Three frames of one colour put three equal
    samples in the buffer; [max - min] is 0 and every [y] either file
    draws is [NaN].  Only for black frames, samples of value 0, does the
    monitor module fall back to the stroke width; the app does not. *)
Theorem flat_signal_draws_NaN :
  let grey := still (RGBA x33 x00 x00 xff) 3 : list (frame float) in
  let black := still (RGBA x00 x00 x00 xff) 3 : list (frame float) in
  let cv := Canvas 300 150 in
  (m ← ticks (processFrame cv (js_of_Z 6)) initial grey;
   mret (value <$> SAMPLE_BUFFER m, graph m))
  = Normal ([(js_of_Z 1 / js_of_Z 10)%js; (js_of_Z 1 / js_of_Z 10)%js;
             (js_of_Z 1 / js_of_Z 10)%js],
            [(js_of_Z 297, nan); (js_of_Z 298, nan); (js_of_Z 299, nan)])
  ∧ (m ← ticks (processFrame_main cv) initial grey; mret (graph m))
    = Normal [(js_of_Z 297, nan); (js_of_Z 298, nan); (js_of_Z 299, nan)]
  ∧ (m ← ticks (processFrame cv (js_of_Z 6)) initial black; mret (graph m))
    = Normal [(js_of_Z 297, js_of_Z 6)]
  ∧ (m ← ticks (processFrame_main cv) initial black; mret (graph m))
    = Normal [(js_of_Z 297, nan); (js_of_Z 298, nan); (js_of_Z 299, nan)].
Proof. vm_compute. done. Qed.

(** C5 does not hold of the app's sampler: one blue pixel has no red and
    no green, and [basicAvgLightness] reads a third.  Nor is the double
    [averageBrightness] returns the stated quotient: the code divides
    twice, by [length * 0.5] and by 255, and on a frame of 899 pixels
    of red 51 and one of red 3 (the sum is 45852) that gives another
    double than 45852 over [900 * 2 * 255], which exact numbers
    give. *)
Lemma blue_counts_and_quotients_round :
  let pixels := replicate 899 (RGBA x33 x00 x00 xff) ++ [RGBA x03 x00 x00 xff] in
  (total red_green [RGBA x00 x00 xff xff] = 0%Z
   ∧ (basicAvgLightness (imageData [RGBA x00 x00 xff xff]) : float)
     = (js_of_Z 1 / js_of_Z 3)%js
   ∧ (averageBrightness (imageData [RGBA x00 x00 xff xff]) : float) = js_of_Z 0)
  ∧ (total red_green pixels = 45852%Z
     ∧ ((averageBrightness (imageData pixels) : float)
        == js_of_Z 45852 / (js_of_Z 900 * js_of_Z 2 * js_of_Z 255))%js = false
     ∧ (averageBrightness (imageData pixels) : float)
       = (js_of_Z 45852 / js_of_Z 1800 / js_of_Z 255)%js
     ∧ ((averageBrightness (imageData pixels) : xnum)
        == js_of_Z 45852 / (js_of_Z 900 * js_of_Z 2 * js_of_Z 255))%js = true).
Proof. vm_compute. done. Qed.

(** Two crossings with one time stamp: the mean interval is 0 and the
    rate is [Infinity], which the display receives. *)
Lemma same_time_gives_Infinity_on_doubles :
  let crossings :=
    [Sample (js_of_Q 0.25) (js_of_Z 1400); Sample (js_of_Q 0.25) (js_of_Z 1400)]
    : list (sample float) in
  calculateBpm crossings = Normal (Some infinity)
  ∧ showBpm None (Some infinity) = Some infinity.
Proof. vm_compute. done. Qed.

(** Were the clock to run backwards between the first crossing and the
    last, the rate would be a negative number. *)
Lemma backwards_time_gives_negative_rate_on_doubles :
  calculateBpm [Sample (js_of_Q 0.25) (js_of_Z 1400);
                Sample (js_of_Q 0.25) (js_of_Z 1000 : float)]
  = Normal (Some (js_of_Z (-150))).
Proof. vm_compute. done. Qed.

(** On a canvas 1000 wide the last [x] of a full buffer and
    [width - xScale] are rounded differently. *)
Lemma right_edge_is_rounded_on_doubles :
  graph_x (Canvas 1000 150) (zigzag MAX_SAMPLES) (MAX_SAMPLES - 1)
  ≠ (js_of_Z 1000 - js_of_Z 1000 / js_of_nat MAX_SAMPLES : float)%js.
Proof. by vm_compute. Qed.

(** ** Crossings keep apart *)

Section Separation.
Context {num : Type} `{JSNumber num}.
Implicit Types (samples rest : list (sample num)) (s : sample num).

Lemma falls_from_sublist average previous samples :
  falls_from average previous samples `sublist_of` samples.
Proof.
  revert previous. induction samples as [|c rest IH]; intros previous; [done|].
  rw /=. case: (_ && _); rw /=; [by apply sublist_skip|by apply sublist_cons].
Qed.

Lemma falls_from_below average previous samples :
  Forall (λ c, (value c < average)%js = true) (falls_from average previous samples).
Proof.
  revert previous. induction samples as [|c rest IH]; intros previous; [done|].
  rw /=. destruct (value c < average)%js eqn:E; [|by apply IH].
  destruct (value previous > average)%js; [|by apply IH].
  constructor; [done|apply IH].
Qed.

(** A crossing lies below the average, so the sample after it is not
    one: of any run of samples, at most every other one is a crossing. *)
Lemma falls_from_length `{!JSNumberLaws num} average previous samples :
  2 * length (falls_from average previous samples)
  ≤ length samples + (if (value previous > average)%js then 1 else 0).
Proof.
  revert previous. induction samples as [|c rest IH]; intros previous; [rw /=; lia|].
  specialize (IH c). rw /=.
  destruct (value c < average)%js eqn:E.
  - rw (js_lt_asym _ _ E) in IH.
    destruct (value previous > average)%js; rw /=; lia.
  - rw /=. destruct (value c > average)%js, (value previous > average)%js; lia.
Qed.

Lemma crossings_length `{!JSNumberLaws num} samples d :
  analyzeData samples = Normal d → 2 * length (crossings d) ≤ length samples.
Proof.
  destruct samples as [|s rest]; [done|]. rw analyzeData_cons. intros [= <-].
  rw /= getAverageCrossings_cons.
  pose proof (falls_from_length (mean (value <$> s :: rest)) s rest) as Hlen.
  destruct (value s > _)%js; rw /= in Hlen |- *; lia.
Qed.

Lemma constant_has_no_crossing `{!JSNumberLaws num} v samples d :
  Forall (λ s, value s = v) samples → analyzeData samples = Normal d →
  crossings d = [].
Proof.
  destruct samples as [|s rest]; [done|].
  intros [Hs Hrest]%Forall_cons. rw analyzeData_cons. intros [= <-].
  by rw /= getAverageCrossings_cons (falls_from_constant _ v).
Qed.

(** X5. Whatever the numbers and the average: the crossings are samples
    of the buffer after the first, in the order of the buffer; each lies
    below the average; the sample that follows a crossing is never a
    crossing; and so a buffer has at most half as many crossings as
    samples. *)
Theorem crossings_are_separated `{!JSNumberLaws num} samples average :
  let crossings := getAverageCrossings samples average in
  crossings `sublist_of` tail samples
  ∧ Forall (λ c, (value c < average)%js = true) crossings
  ∧ (∀ i c, crossing_at samples average i = Some c →
            crossing_at samples average (S i) = None)
  ∧ 2 * length crossings ≤ length samples.
Proof.
  destruct samples as [|s rest].
  { split_and!; [done|done| |done]. intros i c. by destruct i. }
  rw /= getAverageCrossings_cons.
  split_and!.
  - apply falls_from_sublist.
  - apply falls_from_below.
  - intros i c. unfold crossing_at. rw /= Nat.sub_0_r.
    destruct ((s :: rest) !! (i - 1)) as [p|]; [|done].
    destruct ((s :: rest) !! i) as [c'|]; [|done]. rw /=.
    destruct (rest !! i) as [n|]; [|done]. rw /=.
    destruct (value c' < average)%js eqn:E; [|by rw andb_false_r].
    by rw (js_lt_asym _ _ E).
  - pose proof (falls_from_length average s rest) as Hlen.
    destruct (value s > average)%js; rw /=; lia.
Qed.

(** *** When the display is left alone *)

(** What a tick does to the state, in either file. *)
Lemma processFrame_shows cv lineWidth m f :
  ∃ m' d bpm,
    processFrame cv lineWidth m f = Normal m'
    ∧ SAMPLE_BUFFER m' = pushSample (SAMPLE_BUFFER m) (sample_of averageBrightness f)
    ∧ analyzeData (SAMPLE_BUFFER m') = Normal d
    ∧ calculateBpm (crossings d) = Normal bpm
    ∧ bpm_display m' = showBpm (bpm_display m) bpm.
Proof.
  unfold processFrame, sample_of.
  destruct (analyzeData_returns (pushSample (SAMPLE_BUFFER m)
    (Sample (averageBrightness (pixelData f)) (now f)))) as [d Hd];
    [apply pushSample_nonempty|].
  destruct (calculateBpm_returns (crossings d)) as [bpm Hbpm].
  rw Hd /= Hbpm /=. by eexists _, d, bpm.
Qed.

Lemma processFrame_main_shows cv m f :
  ∃ m' d bpm,
    processFrame_main cv m f = Normal m'
    ∧ SAMPLE_BUFFER m' = pushSample (SAMPLE_BUFFER m) (sample_of basicAvgLightness f)
    ∧ analyzeData (SAMPLE_BUFFER m') = Normal d
    ∧ calculateBpm (crossings d) = Normal bpm
    ∧ bpm_display m' = showBpm (bpm_display m) bpm.
Proof.
  unfold processFrame_main, sample_of.
  destruct (analyzeData_returns (pushSample (SAMPLE_BUFFER m)
    (Sample (basicAvgLightness (pixelData f)) (now f)))) as [d Hd];
    [apply pushSample_nonempty|].
  destruct (calculateBpm_returns (crossings d)) as [bpm Hbpm].
  rw Hd /= Hbpm /=. by eexists _, d, bpm.
Qed.

(** A run of ticks leaves the display alone when every buffer it
    analyses, being [quiet], has fewer than two crossings. *)
Lemma ticks_keep_display (tick : monitor num → frame num → completion (monitor num))
    (sampler : list byte → num) (quiet : list (sample num) → Prop) :
  (∀ m f, ∃ m' d bpm,
     tick m f = Normal m'
     ∧ SAMPLE_BUFFER m' = pushSample (SAMPLE_BUFFER m) (sample_of sampler f)
     ∧ analyzeData (SAMPLE_BUFFER m') = Normal d
     ∧ calculateBpm (crossings d) = Normal bpm
     ∧ bpm_display m' = showBpm (bpm_display m) bpm) →
  (∀ b d, quiet b → analyzeData b = Normal d → length (crossings d) < 2) →
  ∀ frames m,
    (∀ k, k < length frames →
       quiet (fold_left pushSample (sample_of sampler <$> take (S k) frames)
                (SAMPLE_BUFFER m))) →
    ∃ m', ticks tick m frames = Normal m' ∧ bpm_display m' = bpm_display m.
Proof.
  intros Htick Hquiet frames.
  induction frames as [|f frames IH]; intros m Hall; [by exists m|].
  destruct (Htick m f) as (m1 & d & bpm & Hm1 & Hb1 & Hd & Hbpm & Hshow).
  pose proof (Hall 0 ltac:(rw /=; lia)) as H0. rw /= -Hb1 in H0.
  rw calculateBpm_short in Hbpm; [by eapply Hquiet|]. injection Hbpm as <-.
  destruct (IH m1) as (m' & Hm' & Hshow').
  { intros k Hk. specialize (Hall (S k) ltac:(rw /=; lia)). by rw /= -Hb1 in Hall. }
  exists m'. by rw /= Hm1 /= Hm' Hshow' Hshow.
Qed.

Lemma pushes_from_empty (l : list (sample num)) :
  fold_left pushSample l [] = drop (length l - MAX_SAMPLES) l.
Proof. by rw pushes_drop /=; [lia|]. Qed.

(** X6. Two crossings take four samples.  From a reset state, the first
    three ticks of either file leave the display as it was, whatever
    the frames show. *)
Theorem first_frames_show_no_rate `{!JSNumberLaws num} cv lineWidth
    (m : monitor num) frames :
  length frames ≤ 3 →
  (∃ m', ticks (processFrame cv lineWidth) (reset m) frames = Normal m'
         ∧ bpm_display m' = bpm_display m)
  ∧ (∃ m', ticks (processFrame_main cv) (reset m) frames = Normal m'
           ∧ bpm_display m' = bpm_display m).
Proof.
  intros Hlen.
  assert (∀ sampler k,
    length (fold_left pushSample (sample_of sampler <$> take (S k) frames)
              (SAMPLE_BUFFER (reset m))) ≤ 3) as Hshort.
  { intros sampler k.
    rw /= /resetBuffer pushes_from_empty length_drop length_fmap length_take. lia. }
  change (bpm_display m) with (bpm_display (reset m)).
  split.
  - apply (ticks_keep_display _ averageBrightness (λ b, length b ≤ 3));
      [apply processFrame_shows| |by intros].
    intros b d Hb Hd%crossings_length. lia.
  - apply (ticks_keep_display _ basicAvgLightness (λ b, length b ≤ 3));
      [apply processFrame_main_shows| |by intros].
    intros b d Hb Hd%crossings_length. lia.
Qed.

(** X7. While every frame gives the same sample value, the ticks of
    either file, from a reset state, leave the display as it was: a
    steady picture shows no rate, however long it lasts and whatever
    the rounding of the mean. *)
Theorem steady_brightness_shows_no_rate `{!JSNumberLaws num} cv lineWidth
    (m : monitor num) frames (v : num) :
  (Forall (λ f, averageBrightness (pixelData f) = v) frames →
   ∃ m', ticks (processFrame cv lineWidth) (reset m) frames = Normal m'
         ∧ bpm_display m' = bpm_display m)
  ∧ (Forall (λ f, basicAvgLightness (pixelData f) = v) frames →
     ∃ m', ticks (processFrame_main cv) (reset m) frames = Normal m'
           ∧ bpm_display m' = bpm_display m).
Proof.
  assert (∀ sampler k,
    Forall (λ f, sampler (pixelData f) = v) frames →
    Forall (λ s, value s = v)
      (fold_left pushSample (sample_of sampler <$> take (S k) frames)
         (SAMPLE_BUFFER (reset m)))) as Hconst.
  { intros sampler k Hall. rw /= /resetBuffer pushes_from_empty.
    by apply Forall_drop, Forall_fmap, Forall_take. }
  change (bpm_display m) with (bpm_display (reset m)).
  split; intros Hall.
  - apply (ticks_keep_display _ averageBrightness (Forall (λ s, value s = v)));
      [apply processFrame_shows| |intros k Hk; by apply (Hconst averageBrightness)].
    intros b d Hb Hd. rw (constant_has_no_crossing v b d) //=. lia.
  - apply (ticks_keep_display _ basicAvgLightness (Forall (λ s, value s = v)));
      [apply processFrame_main_shows| |intros k Hk; by apply (Hconst basicAvgLightness)].
    intros b d Hb Hd. rw (constant_has_no_crossing v b d) //=. lia.
Qed.

End Separation.

Lemma crossings_are_separated_witness :
  2 * length (getAverageCrossings (swing : list (sample float)) (js_of_Q 0.5))
  ≤ length (swing : list (sample float)).
Proof.
  by destruct (crossings_are_separated (num := float) swing (js_of_Q 0.5))
    as (_ & _ & _ & ?).
Defined.

Lemma first_frames_show_no_rate_witness :
  ∃ m', ticks (processFrame (Canvas 300 150) (js_of_Z 6)) (reset initial)
          [plain_frame (RGBA xff xff xff xff) 1000;
           plain_frame (RGBA x00 x00 x00 xff) 1016;
           plain_frame (RGBA xff xff xff xff) 1032 : frame float]
        = Normal m'
        ∧ bpm_display m' = None.
Proof.
  pose proof (first_frames_show_no_rate (num := float) (Canvas 300 150) (js_of_Z 6)
    initial
    [plain_frame (RGBA xff xff xff xff) 1000;
     plain_frame (RGBA x00 x00 x00 xff) 1016;
     plain_frame (RGBA xff xff xff xff) 1032]) as Hthm.
  cbn [length] in Hthm. destruct Hthm as [Hthm _]; [lia|]. exact Hthm.
Defined.

(** A fourth frame is enough: white, black, white, black, 16 ms apart,
    put two crossings 32 ms apart into the buffer. *)
Lemma four_frames_can_show_a_rate :
  (m ← ticks (processFrame (Canvas 300 150) (js_of_Z 6)) (reset initial)
         [plain_frame (RGBA xff xff xff xff) 1000;
          plain_frame (RGBA x00 x00 x00 xff) 1016;
          plain_frame (RGBA xff xff xff xff) 1032;
          plain_frame (RGBA x00 x00 x00 xff) 1048 : frame float];
   mret (bpm_display m))
  = Normal (Some (js_of_Z 1875)).
Proof. vm_compute. reflexivity. Qed.

Lemma steady_brightness_shows_no_rate_witness :
  ∃ m', ticks (processFrame (Canvas 300 150) (js_of_Z 6)) (reset initial)
          (still (RGBA x33 x00 x00 xff) 5 : list (frame float))
        = Normal m'
        ∧ bpm_display m' = None.
Proof.
  destruct (steady_brightness_shows_no_rate (num := float) (Canvas 300 150) (js_of_Z 6)
    initial (still (RGBA x33 x00 x00 xff) 5) (js_of_Z 1 / js_of_Z 10)%js)
    as [Hthm _].
  apply Hthm, Forall_fmap, Forall_forall. intros k _.
  unfold compose, plain_frame. cbn [pixelData]. vm_compute. reflexivity.
Defined.

(** ** The rate, over exact values *)

Section ExactRate.
Local Open Scope Qc_scope.
Implicit Types (samples crossings : list (sample xnum)) (d t : Qc).

(** X8. Crossings that follow each other at one period, however many
    there are and whenever the first was: the rate is 60000 over the
    period. *)
Theorem steady_beat_is_recovered crossings (t0 period : Qc) :
  (2 ≤ length crossings)%nat →
  period ≠ 0 →
  (∀ (k : nat) c, crossings !! k = Some c →
     time c = XFin (t0 + Qc_of_Z (Z.of_nat k) * period)) →
  calculateBpm crossings = Normal (Some (XFin (Qc_of_Z 60000 / period))).
Proof.
  intros Hlen Hperiod Htimes.
  destruct (lookup_lt_is_Some_2 crossings 0) as [first Hfirst]; [lia|].
  destruct (lookup_lt_is_Some_2 crossings (length crossings - 1)) as [final Hfinal]; [lia|].
  rw (calculateBpm_first_last crossings first final) //.
  { by rw head_lookup. }
  { by rw last_lookup -Nat.sub_1_r. }
  rw (Htimes _ _ Hfirst) (Htimes _ _ Hfinal).
  rw XFin_sub /js_of_nat !js_of_Z_exact XFin_sub.
  set (n := Qc_of_Z (Z.of_nat (length crossings))).
  assert (Qc_of_Z (Z.of_nat (length crossings - 1)) = n - Qc_of_Z 1) as ->.
  { subst n. rw -Z2Qc_inj_sub. f_equal. lia. }
  assert (n - Qc_of_Z 1 ≠ 0) as Hn.
  { subst n. rw -Z2Qc_inj_sub. apply Qc_pos_ne0. rw -Z2Qc_inj_0 -Z2Qc_inj_lt. lia. }
  rw XFin_div //.
  assert ((t0 + (n - Qc_of_Z 1) * period - (t0 + Qc_of_Z (Z.of_nat 0) * period))
          / (n - Qc_of_Z 1) = period) as ->.
  { change (Z.of_nat 0) with 0%Z. rw Z2Qc_inj_0. field. done. }
  by rw XFin_div.
Qed.


(** *** The highest rate a frame interval allows *)

Lemma spaced_tail d s samples : spaced d (s :: samples) → spaced d samples.
Proof. intros Hsp i a b Ha Hb. by apply (Hsp (S i) a b). Qed.

Lemma spaced_head d s s' samples :
  spaced d (s :: s' :: samples) →
  ∃ t t', time s = XFin t ∧ time s' = XFin t' ∧ t + d ≤ t'.
Proof. intros Hsp. by apply (Hsp 0%nat). Qed.

Lemma spaced_cons d s samples :
  spaced d samples →
  (∀ s', head samples = Some s' →
     ∃ t t', time s = XFin t ∧ time s' = XFin t' ∧ t + d ≤ t') →
  spaced d (s :: samples).
Proof.
  intros Hsp Hhead [|i] a b; rw /=.
  - intros [= <-] Hb. apply Hhead. by rw head_lookup.
  - apply Hsp.
Qed.

Lemma Qcle_plus_nonneg a b : 0 ≤ b → a ≤ a + b.
Proof.
  intros Hb. rw -{1}(Qcplus_0_r a). by apply Qcplus_le_compat; [reflexivity|].
Qed.

(** Two crossings are never next to each other, so the crossings of
    samples [d] apart are [d + d] apart. *)
Lemma falls_from_spaced average d previous tp samples :
  0 ≤ d →
  spaced d (previous :: samples) →
  time previous = XFin tp →
  spaced (d + d) (falls_from average previous samples)
  ∧ ∀ c, head (falls_from average previous samples) = Some c →
         ∃ tc, time c = XFin tc ∧ tp + d ≤ tc
               ∧ ((value previous > average)%js = false → tp + (d + d) ≤ tc).
Proof.
  intros Hd. revert previous tp.
  induction samples as [|cur rest IH]; intros previous tp Hsp Htp.
  { split; [by intros i a b|done]. }
  destruct (spaced_head _ _ _ _ Hsp) as (t & tcur & Ht & Htcur & Hgap).
  rw Htp in Ht. injection Ht as <-.
  destruct (IH cur tcur (spaced_tail _ _ _ Hsp) Htcur) as [IHsp IHhead].
  cbn [falls_from].
  destruct (value cur < average)%js eqn:Ecur;
    [destruct (value previous > average)%js eqn:Eprev|]; cbn [andb app].
  - split.
    + apply spaced_cons; [done|]. intros c Hc.
      destruct (IHhead c Hc) as (tc & Htc & _ & Hfar).
      exists tcur, tc. split_and!; [done|done|].
      apply Hfar. by apply js_lt_asym.
    + intros c [= <-]. by exists tcur.
  - split; [done|]. intros c Hc.
    destruct (IHhead c Hc) as (tc & Htc & Hnear & _).
    exists tc. split; [done|].
    assert (tp + (d + d) ≤ tc) as Hfar.
    { rw Qcplus_assoc. etrans; [|exact Hnear].
      by apply Qcplus_le_compat; [|reflexivity]. }
    split; [|done]. etrans; [|exact Hfar].
    apply Qcplus_le_compat; [reflexivity|]. by apply Qcle_plus_nonneg.
  - split; [done|]. intros c Hc.
    destruct (IHhead c Hc) as (tc & Htc & Hnear & _).
    exists tc. split; [done|].
    assert (tp + (d + d) ≤ tc) as Hfar.
    { rw Qcplus_assoc. etrans; [|exact Hnear].
      by apply Qcplus_le_compat; [|reflexivity]. }
    split; [|done]. etrans; [|exact Hfar].
    apply Qcplus_le_compat; [reflexivity|]. by apply Qcle_plus_nonneg.
Qed.

(** Samples [d] apart span at least [d] times their number less one. *)
Lemma spaced_span d c rest t0 final :
  spaced d (c :: rest) → time c = XFin t0 → last (c :: rest) = Some final →
  ∃ t1, time final = XFin t1 ∧ t0 + Qc_of_Z (Z.of_nat (length rest)) * d ≤ t1.
Proof.
  revert c t0. induction rest as [|c' rest IH]; intros c t0 Hsp Ht0 Hlast.
  { injection Hlast as <-. exists t0. split; [done|].
    change (Z.of_nat (length [])) with 0%Z.
    rw Z2Qc_inj_0 Qcmult_0_l Qcplus_0_r. reflexivity. }
  destruct (spaced_head _ _ _ _ Hsp) as (t & t' & Ht & Ht' & Hgap).
  rw Ht0 in Ht. injection Ht as <-.
  rw last_cons_cons in Hlast.
  destruct (IH c' t' (spaced_tail _ _ _ Hsp) Ht' Hlast) as (t1 & Ht1 & Hspan).
  exists t1. split; [done|]. etrans; [|exact Hspan].
  cbn [length]. rw Nat2Z.inj_succ -Z.add_1_l Z2Qc_inj_add Z2Qc_inj_1.
  rw Qcmult_plus_distr_l Qcmult_1_l Qcplus_assoc.
  by apply Qcplus_le_compat; [|reflexivity].
Qed.

Lemma Qcinv_le_anti a b : 0 < b → b ≤ a → / a ≤ / b.
Proof.
  intros Hb Hab.
  assert (0 < a) as Ha by by eapply Qclt_le_trans.
  pose proof (Qc_pos_ne0 _ Ha). pose proof (Qc_pos_ne0 _ Hb).
  apply (Qcmult_le_mono_pos_r _ _ (a * b)); [by apply Qcmult_pos_pos|].
  replace (/ a * (a * b)) with b by (field; done).
  by replace (/ b * (a * b)) with a by (field; done).
Qed.

(** X9. With samples at least [d] ms apart, [calculateBpm] on the
    crossings [getAverageCrossings] finds, whatever the average, gives
    no rate or a positive one of at most [30000 / d]: half the rate of
    the frames, in beats. *)
Theorem rate_bounded_by_frame_interval samples average d :
  0 < d →
  spaced d samples →
  calculateBpm (getAverageCrossings samples average) = Normal None
  ∨ ∃ bpm,
      calculateBpm (getAverageCrossings samples average) = Normal (Some (XFin bpm))
      ∧ 0 < bpm ≤ Qc_of_Z 30000 / d.
Proof.
  intros Hd Hsp.
  destruct samples as [|s [|s' rest]];
    [by left|left; by rw getAverageCrossings_cons|].
  destruct (spaced_head _ _ _ _ Hsp) as (tp & ? & Htp & _ & _).
  rw getAverageCrossings_cons.
  destruct (falls_from_spaced average d s tp (s' :: rest) (Qclt_le_weak _ _ Hd) Hsp Htp)
    as [Hfalls Hhead].
  destruct (falls_from average s (s' :: rest)) as [|c [|c' r]] eqn:E;
    [by left|by left|right].
  destruct (Hhead c eq_refl) as (t0 & Ht0 & _).
  destruct (proj2 (last_is_Some (c :: c' :: r)) ltac:(done)) as [final Hfinal].
  destruct (spaced_span _ _ _ _ _ Hfalls Ht0 Hfinal) as (t1 & Ht1 & Hspan).
  rw (calculateBpm_first_last (c :: c' :: r) c final) //; [rw /=; lia|].
  rw Ht0 Ht1 XFin_sub /js_of_nat !js_of_Z_exact XFin_sub -Z2Qc_inj_sub.
  replace (Z.of_nat (length (c :: c' :: r)) - 1)%Z
    with (Z.of_nat (length (c' :: r))) by (rw /=; lia).
  set (k := Qc_of_Z (Z.of_nat (length (c' :: r)))) in *.
  assert (0 < k) as Hk by (apply Qc_of_nat_pos; rw /=; lia).
  pose proof (Qc_pos_ne0 _ Hk) as Hk0.
  assert (0 < d + d) as Hdd by by apply Qcplus_pos_pos.
  assert (d + d ≤ (t1 - t0) / k) as Hinterval.
  { apply (Qcmult_le_mono_pos_r _ _ k); [done|].
    replace ((t1 - t0) / k * k) with (t1 - t0) by (field; done).
    rw (Qcmult_comm (d + d)).
    apply (Qcplus_le_mono_r _ _ t0).
    replace (t1 - t0 + t0) with t1 by ring.
    by rw (Qcplus_comm _ t0). }
  assert (0 < (t1 - t0) / k) as Hpos by by eapply Qclt_le_trans.
  rw XFin_div //. rw XFin_div; [by apply Qc_pos_ne0|].
  eexists. split; [done|]. split.
  - apply Qcmult_pos_pos; [done|]. by apply Qcinv_pos.
  - assert (Qc_of_Z 30000 / d = Qc_of_Z 60000 * / (d + d)) as ->.
    { assert (Qc_of_Z 60000 = Qc_of_Z 30000 * Qc_of_Z 2) as -> by by apply Qc_is_canon.
      pose proof (Qc_pos_ne0 _ Hd). pose proof (Qc_pos_ne0 _ Hdd).
      assert (Qc_of_Z 2 = 1 + 1) as -> by by apply Qc_is_canon.
      field. split; [done|].
      by replace ((1 + 1) * d) with (d + d) by ring. }
    apply Qcmult_le_mono_nonneg_l; [done|]. by apply Qcinv_le_anti.
Qed.

End ExactRate.

Lemma steady_beat_is_recovered_witness :
  calculateBpm [Sample (js_of_Q 0.25) (XFin (Qc_of_Z 1400));
                Sample (js_of_Q 0.25) (XFin (Qc_of_Z 2200));
                Sample (js_of_Q 0.25) (XFin (Qc_of_Z 3000))]
  = Normal (Some (XFin (Qc_of_Z 60000 / Qc_of_Z 800)%Qc)).
Proof.
  apply (steady_beat_is_recovered _ (Qc_of_Z 1400) (Qc_of_Z 800)); [simpl; lia|done|].
  intros [|[|[|k]]] c [= <-]; cbn [time]; f_equal; by apply Qc_is_canon.
Defined.

Lemma rate_bounded_by_frame_interval_witness :
  calculateBpm (getAverageCrossings (swing : list (sample xnum)) (js_of_Q 0.5))
  = Normal None
  ∨ ∃ bpm,
      calculateBpm (getAverageCrossings (swing : list (sample xnum)) (js_of_Q 0.5))
      = Normal (Some (XFin bpm))
      ∧ (0 < bpm ≤ Qc_of_Z 30000 / Qc_of_Z 400)%Qc.
Proof.
  apply (rate_bounded_by_frame_interval swing (js_of_Q 0.5) (Qc_of_Z 400)); [done|].
  intros i s s' Hs Hs'.
  do 5 (destruct i as [|i];
    [injection Hs as <-; injection Hs' as <-; by eexists _, _|]).
  by destruct i.
Defined.

(** ** The graph stays on the canvas *)

Section ExactInset.
Local Open Scope Qc_scope.
Implicit Types (cv : canvas) (samples : list (sample xnum)) (values : list Qc).

(** [y] of a sample when the signal is not flat. *)
Lemma graph_y_main_exact cv (d : dataStats xnum) (s : sample xnum) (v lo hi : Qc) :
  min d = XFin lo → max d = XFin hi → value s = XFin v → hi - lo ≠ 0 →
  graph_y_main cv d s
  = XFin ((Qc_of_Z (Z.of_N (height cv)) - Qc_of_Z 6 * Qc_of_Z 2) * (v - lo)
          / (hi - lo) + Qc_of_Z 6).
Proof.
  intros Hmin Hmax Hs Hrange. unfold graph_y_main.
  rw Hmin Hmax Hs !js_of_Z_exact.
  by rw XFin_mul !XFin_sub XFin_mul XFin_div // XFin_add.
Qed.

Lemma graph_y_exact cv (lineWidth : Qc) (d : dataStats xnum) (s : sample xnum)
    (v lo hi : Qc) :
  min d = XFin lo → max d = XFin hi → value s = XFin v → hi - lo ≠ 0 →
  graph_y cv (XFin lineWidth) d s
  = XFin (if bool_decide (v = 0) then lineWidth
          else (Qc_of_Z (Z.of_N (height cv)) - lineWidth * Qc_of_Z 2) * (v - lo)
               / (hi - lo) + lineWidth).
Proof.
  intros Hmin Hmax Hs Hrange. unfold graph_y.
  rw Hmin Hmax Hs !js_of_Z_exact.
  assert ((XFin v != XFin (Qc_of_Z 0))%js = negb (bool_decide (v = 0))) as ->.
  { rw /= /X.eq Z2Qc_inj_0. f_equal. apply bool_decide_ext.
    split; [by intros [= ->]|by intros ->]. }
  destruct (bool_decide (v = 0)); cbn [negb]; [done|].
  by rw XFin_mul !XFin_sub XFin_mul XFin_div // XFin_add.
Qed.

Lemma graph_x_on_canvas cv samples (i : nat) :
  (i < length samples)%nat → (length samples ≤ MAX_SAMPLES)%nat →
  ∃ x, graph_x cv samples i = XFin x ∧ 0 ≤ x ≤ Qc_of_Z (Z.of_N (width cv)).
Proof.
  intros Hi Hlen. rw graph_x_exact. cbv zeta. eexists. split; [done|].
  set (W := Qc_of_Z (Z.of_N (width cv))).
  set (M := Qc_of_Z (Z.of_nat MAX_SAMPLES)).
  assert (0 ≤ W) as HW by (subst W; rw -Z2Qc_inj_0 -Z2Qc_inj_le; lia).
  pose proof Qc_MAX_SAMPLES_pos as HM. fold M in HM.
  pose proof (Qc_pos_ne0 _ HM) as HM0.
  assert (0 ≤ W / M) as Hscale.
  { apply Qcmult_nonneg_nonneg; [done|]. by apply Qclt_le_weak, Qcinv_pos. }
  set (k := (i + (MAX_SAMPLES - length samples))%nat).
  assert (W / M * Qc_of_Z (Z.of_nat i) + (M - Qc_of_Z (Z.of_nat (length samples))) * (W / M)
          = W / M * Qc_of_Z (Z.of_nat k)) as ->.
  { subst k M. rw Nat2Z.inj_add Nat2Z.inj_sub // Z2Qc_inj_add Z2Qc_inj_sub. ring. }
  split.
  - apply Qcmult_nonneg_nonneg; [done|]. rw -Z2Qc_inj_0 -Z2Qc_inj_le. lia.
  - replace W with (W / M * M) at 2 by (field; done).
    apply Qcmult_le_mono_nonneg_l; [done|]. subst M k. rw -Z2Qc_inj_le. lia.
Qed.

(** A value between [lo] and [hi] is drawn between the insets. *)
Lemma rescaled_inside (surface inset v lo hi : Qc) :
  lo < hi → lo ≤ v ≤ hi → inset * Qc_of_Z 2 ≤ surface →
  inset ≤ (surface - inset * Qc_of_Z 2) * (v - lo) / (hi - lo) + inset
  ≤ surface - inset.
Proof.
  intros Hlohi [Hlo Hhi] Hroom.
  assert (0 < hi - lo) as Hrange by by rw -(Qcplus_opp_r lo) -Qcplus_lt_mono_r.
  pose proof (Qc_pos_ne0 _ Hrange) as Hrange0.
  assert (0 ≤ v - lo) as Hv0 by by rw -(Qcplus_opp_r lo) -Qcplus_le_mono_r.
  assert (v - lo ≤ hi - lo) as Hv1 by by rw -Qcplus_le_mono_r.
  destruct (Qcdiv_le_1 (v - lo) (hi - lo) Hrange Hv0 Hv1) as [Hq0 Hq1].
  assert (0 ≤ surface - inset * Qc_of_Z 2) as Hmax
    by by rw -(Qcplus_opp_r (inset * Qc_of_Z 2)) -Qcplus_le_mono_r.
  set (maxHeight := surface - inset * Qc_of_Z 2) in *.
  assert (maxHeight * (v - lo) / (hi - lo) = maxHeight * ((v - lo) / (hi - lo))) as ->
    by (field; done).
  split.
  - rw -{1}(Qcplus_0_l inset) -Qcplus_le_mono_r. by apply Qcmult_nonneg_nonneg.
  - assert (surface - inset = maxHeight * 1 + inset) as ->.
    { subst maxHeight. assert (Qc_of_Z 2 = 1 + 1) as -> by by apply Qc_is_canon. ring. }
    rw -Qcplus_le_mono_r. by apply Qcmult_le_mono_nonneg_l.
Qed.

Lemma lineTos_points (xOf : nat → xnum) (yOf : sample xnum → xnum) previousY samples
    (p : point xnum) :
  p ∈ lineTos xOf yOf 0 previousY samples →
  ∃ i s, samples !! i = Some s ∧ p = (xOf i, yOf s).
Proof.
  intros Hp.
  pose proof (lineTos_sublist xOf yOf 0 previousY samples) as Hsub.
  apply (elem_of_sublist _ _ _ Hp) in Hsub.
  apply elem_of_lookup_imap in Hsub as (i & s & -> & Hs). by exists i, s.
Qed.

(** The samples of a buffer of exact values lie between the extremes
    [analyzeData] finds. *)
Lemma samples_between samples values (lo hi : Qc) :
  value <$> samples = XFin <$> values →
  (∀ v, v ∈ values → lo ≤ v ≤ hi) →
  ∀ s, s ∈ samples → ∃ v, value s = XFin v ∧ lo ≤ v ≤ hi.
Proof.
  intros Hvalues Hall s (i & Hi)%list_elem_of_lookup_1.
  assert ((value <$> samples) !! i = Some (value s)) as Hvi
    by by rw list_lookup_fmap Hi.
  rw Hvalues list_lookup_fmap in Hvi.
  destruct (values !! i) as [v|] eqn:Ev; [|done].
  injection Hvi as Hvi. exists v. split; [done|].
  by apply Hall, (list_elem_of_lookup_2 _ i).
Qed.

(** A buffer of exact values that is not flat, of at most
    [MAX_SAMPLES] samples, on a canvas at least two stroke widths
    high: every point either [drawGraph] emits has [0 <= x <= width]
    and [lineWidth <= y <= height - lineWidth], the stroke width being
    6 in the app. *)
Lemma graph_inside_exactly cv (lineWidth : Qc) samples values d :
  value <$> samples = XFin <$> values →
  analyzeData samples = Normal d →
  min d ≠ max d →
  (length samples ≤ MAX_SAMPLES)%nat →
  (lineWidth * Qc_of_Z 2 ≤ Qc_of_Z (Z.of_N (height cv)) →
   Forall (inside cv lineWidth) (drawGraph cv (XFin lineWidth) samples d))
  ∧ (Qc_of_Z 6 * Qc_of_Z 2 ≤ Qc_of_Z (Z.of_N (height cv)) →
     Forall (inside cv (Qc_of_Z 6)) (drawGraph_main cv samples d)).
Proof.
  intros Hvalues Hd Hrange Hlen.
  destruct samples as [|s rest], values as [|v0 values]; try done.
  pose proof Hvalues as [= Hs _].
  destruct (extrema_exact (s :: rest) (v0 :: values) v0 v0 Hvalues)
    as (lo & hi & Hfold & Hlo & Hhi & Hall & _ & _).
  rw analyzeData_cons in Hd. cbv zeta in Hd. rw Hs Hfold in Hd.
  injection Hd as <-. cbn [min max fst snd] in Hrange.
  assert (lo < hi) as Hlohi.
  { destruct (Qcle_lt_or_eq lo hi) as [?|Heq]; [by etrans|done|]. by rw Heq in Hrange. }
  assert (hi - lo ≠ 0) as Hrange0
    by by apply Qc_pos_ne0; rw -(Qcplus_opp_r lo) -Qcplus_lt_mono_r.
  set (d := DataStats _ _ _ _ _).
  pose proof (samples_between _ _ lo hi Hvalues Hall) as Hsample.
  split; intros Hroom; apply Forall_forall; intros p Hp.
  - apply lineTos_points in Hp as (i & s' & Hi & ->).
    destruct (graph_x_on_canvas cv (s :: rest) i) as (x & -> & Hx);
      [by eapply lookup_lt_Some|done|].
    destruct (Hsample s') as (v & Hv & Hbounds); [by eapply list_elem_of_lookup_2|].
    rw (graph_y_exact cv lineWidth d s' v lo hi) //.
    split; [done|]. case_bool_decide; [|by apply rescaled_inside].
    split; [reflexivity|].
    apply (Qcplus_le_mono_r _ _ lineWidth).
    replace (Qc_of_Z (Z.of_N (height cv)) - lineWidth + lineWidth)
      with (Qc_of_Z (Z.of_N (height cv))) by ring.
    assert (Qc_of_Z 2 = 1 + 1) as Htwo by by apply Qc_is_canon.
    by rw Htwo Qcmult_plus_distr_r Qcmult_1_r in Hroom.
  - apply lineTos_points in Hp as (i & s' & Hi & ->).
    destruct (graph_x_on_canvas cv (s :: rest) i) as (x & -> & Hx);
      [by eapply lookup_lt_Some|done|].
    destruct (Hsample s') as (v & Hv & Hbounds); [by eapply list_elem_of_lookup_2|].
    rw (graph_y_main_exact cv d s' v lo hi) //.
    split; [done|]. by apply rescaled_inside.
Qed.

End ExactInset.

(** ** The channels a sampler reads *)

Section Channels.
Context {num : Type} `{JSNumber num}.
Implicit Types (pixels : list rgba).

Lemma averageBrightness_pixels pixels :
  averageBrightness (imageData pixels)
  = (fold_left (λ sum p, sum + js_of_Z (intensity (red p))
                         + js_of_Z (intensity (green p)))%js pixels (js_of_Z 0)
     / (js_of_nat (4 * length pixels) * js_of_Q 0.5) / js_of_Z 255 : num)%js.
Proof.
  unfold averageBrightness.
  by rw imageData_length for_step4_pixels (averageBrightness_loop [] pixels).
Qed.

Lemma basicAvgLightness_pixels pixels :
  basicAvgLightness (imageData pixels)
  = (fold_left (λ sum p, sum + js_of_Z (intensity (red p))
                         + js_of_Z (intensity (green p))
                         + js_of_Z (intensity (blue p)))%js pixels (js_of_Z 0)
     / (js_of_nat (4 * length pixels) * js_of_Q 0.75) / js_of_Z 255 : num)%js.
Proof.
  unfold basicAvgLightness.
  by rw imageData_length for_step4_pixels (basicAvgLightness_loop [] pixels).
Qed.

Lemma fold_left_fmap {A B C} (f : A → B) (g : C → B → C) (l : list A) (c : C) :
  fold_left (λ c a, g c (f a)) l c = fold_left g (f <$> l) c.
Proof. revert c. induction l as [|a l IH]; intros c; [done|]. by rw /= IH. Qed.

(** X11. Whatever the numbers (doubles included): two frames whose
    pixels agree in red and green get the same [averageBrightness],
    whatever their blue and alpha; two frames that agree in red, green
    and blue get the same [basicAvgLightness], whatever their alpha. *)
Theorem samplers_read_only_their_channels pixels pixels' :
  ((λ p, (red p, green p)) <$> pixels = (λ p, (red p, green p)) <$> pixels' →
   averageBrightness (num := num) (imageData pixels)
   = averageBrightness (imageData pixels'))
  ∧ ((λ p, (red p, green p, blue p)) <$> pixels
     = (λ p, (red p, green p, blue p)) <$> pixels' →
     basicAvgLightness (num := num) (imageData pixels)
     = basicAvgLightness (imageData pixels')).
Proof.
  split; intros Hsame.
  - rw !averageBrightness_pixels.
    assert (length pixels = length pixels') as ->
      by by rw -(length_fmap (λ p, (red p, green p))) Hsame length_fmap.
    do 2 f_equal.
    rw (fold_left_fmap (λ p, (red p, green p))
          (λ sum rg, sum + js_of_Z (intensity rg.1) + js_of_Z (intensity rg.2))%js pixels).
    rw (fold_left_fmap (λ p, (red p, green p))
          (λ sum rg, sum + js_of_Z (intensity rg.1) + js_of_Z (intensity rg.2))%js pixels').
    by rw Hsame.
  - rw !basicAvgLightness_pixels.
    assert (length pixels = length pixels') as ->
      by by rw -(length_fmap (λ p, (red p, green p, blue p))) Hsame length_fmap.
    do 2 f_equal.
    rw (fold_left_fmap (λ p, (red p, green p, blue p))
          (λ sum rgb, sum + js_of_Z (intensity rgb.1.1) + js_of_Z (intensity rgb.1.2)
                      + js_of_Z (intensity rgb.2))%js pixels).
    rw (fold_left_fmap (λ p, (red p, green p, blue p))
          (λ sum rgb, sum + js_of_Z (intensity rgb.1.1) + js_of_Z (intensity rgb.1.2)
                      + js_of_Z (intensity rgb.2))%js pixels').
    by rw Hsame.
Qed.
End Channels.

Lemma samplers_read_only_their_channels_witness :
  averageBrightness (num := float) (imageData [RGBA x33 x80 x00 xff; RGBA x01 x02 x03 x04])
  = averageBrightness (imageData [RGBA x33 x80 xff x00; RGBA x01 x02 x30 x40]).
Proof.
  by apply (samplers_read_only_their_channels (num := float)).
Defined.

(** ** Starting up, and a session *)

Lemma getCamera_last devices :
  getCamera devices = last (filter (λ device, kind device = "videoinput") devices).
Proof.
  unfold getCamera. rw last_lookup.
  by destruct (filter _ devices).
Qed.

(** X13. The camera chosen is the last video input the browser lists:
    it is a device of the list, of kind ["videoinput"], with no video
    input after it; and there is none exactly when the list has no
    video input. *)
Theorem getCamera_is_last_video_input devices :
  (getCamera devices = None
   ↔ Forall (λ device, kind device ≠ "videoinput") devices)
  ∧ ∀ camera, getCamera devices = Some camera →
      ∃ before after,
        devices = before ++ camera :: after
        ∧ kind camera = "videoinput"
        ∧ Forall (λ device, kind device ≠ "videoinput") after.
Proof.
  rw getCamera_last.
  induction devices as [|x devices [IHnone IHsome]] using rev_ind.
  { split; [done|]. intros camera. by rw filter_nil. }
  rw filter_app filter_cons filter_nil Forall_app Forall_singleton.
  destruct (decide (kind x = "videoinput")) as [Hx|Hx].
  - rw last_snoc. split; [split; [done|by intros [_ ?]]|].
    intros camera [= <-]. by exists devices, [].
  - rw app_nil_r. split; [rw IHnone; tauto|].
    intros camera (before & after & -> & Hc & Hafter)%IHsome.
    exists before, (after ++ [x]). rw -app_assoc. split_and!; [done|done|].
    rw Forall_app Forall_singleton. done.
Qed.

Section SessionProps.
Context {num : Type} `{JSNumber num}.
Implicit Types (b : browser) (s : session num).

(** X12. [!"mediaDevices" in navigator] asks whether [navigator] has a
    property named ["false"].  On a browser that has none, [initialize]
    of either file raises no alert and returns nothing, whether there
    is a [navigator.mediaDevices] or not.  When there is not, the
    [startMonitoring] that the first [toggleMonitoring] calls is
    rejected with a [TypeError]; [toggleMonitoring] drops that (the
    module's returns nothing, the promise of the app's is fulfilled),
    no alert is raised and [MONITORING] stays false. *)
Theorem unsupported_browser_is_not_told b s :
  hasProperty b "false" = false →
  initialize b s
  = (Session (state s) (MONITORING s) (VIDEO_STREAM s)
       (events s ++ [addEventListener "window" "resize"; resize]), None)
  ∧ initialize_main b s
    = (Session (reset (state s)) (MONITORING s) (VIDEO_STREAM s)
         (events s ++ [addEventListener "window" "resize";
                       addEventListener "bpm-display-container" "click";
                       resize]), None)
  ∧ (mediaDevices b = None → MONITORING s = false →
     (startMonitoring b (initialize b s).1).2 = rejected TypeError
     ∧ toggleMonitoring b (initialize b s).1
       = Session (blank (reset (state s))) false (VIDEO_STREAM s)
           (events s ++ [addEventListener "window" "resize"; resize; resize])
     ∧ (startMonitoring_main b (initialize_main b s).1).2 = rejected TypeError
     ∧ toggleMonitoring_main b (initialize_main b s).1
       = (Session (reset (state s)) false (VIDEO_STREAM s)
            (events s ++ [addEventListener "window" "resize";
                          addEventListener "bpm-display-container" "click";
                          resize]),
          fulfilled)).
Proof.
  intros Hfalse.
  unfold initialize, initialize_main, js_in. cbn [js_not ToBoolean ToPropertyKey negb String.eqb].
  rw Hfalse. split_and!; [done|done|].
  intros Hmedia Hidle.
  unfold toggleMonitoring, toggleMonitoring_main, startMonitoring, startMonitoring_main.
  cbn [fst MONITORING]. rw Hidle Hmedia. cbn [fst snd events state VIDEO_STREAM MONITORING].
  by rw -app_assoc.
Qed.

Lemma getCamera_none devices :
  Forall (λ device, kind device ≠ "videoinput") devices → getCamera devices = None.
Proof.
  intros Hnone. rw getCamera_last.
  induction Hnone as [|x devices Hx Hnone IH]; [done|].
  by rw filter_cons_False.
Qed.

(** X14. A start that finds no camera.  When no video input is listed,
    or the camera chosen does not open, [startMonitoring] shows the one
    alert of [startCameraStream], leaves [MONITORING] as it was and
    [VIDEO_STREAM] undefined, and schedules no loop; the buffer is
    empty all the same.  The monitor module then rejects with
    ["Unable to start video stream"], the app returns quietly. *)
Theorem start_without_a_camera b media s :
  mediaDevices b = Some media →
  let devices := enumerateDevices media in
  let failed message :=
    alert ("Failed to access camera!" ++ newline ++ "Error: " ++ message) in
  let ends message :=
    startMonitoring b s
    = (Session (blank (reset (state s))) (MONITORING s) None
         (events s ++ [resize; failed message]),
       rejected_Error "Unable to start video stream")
    ∧ startMonitoring_main b s
      = (Session (reset (state s)) (MONITORING s) None
           (events s ++ [failed message]),
         fulfilled) in
  (Forall (λ device, kind device ≠ "videoinput") devices →
   ends (TypeError_message b "deviceId"))
  ∧ (∀ camera message,
       getCamera devices = Some camera →
       getUserMedia media (deviceId camera) = inr message →
       ends message).
Proof.
  intros Hmedia devices failed ends. subst ends failed devices.
  unfold startMonitoring, startMonitoring_main, startCameraStream. rw Hmedia.
  split.
  - intros Hnone. rw (getCamera_none _ Hnone). by rw -app_assoc.
  - intros camera message -> ->. by rw -app_assoc.
Qed.

Lemma monitorLoop_run tick (sampler : list byte → num) s f :
  (∀ m f, ∃ m', tick m f = Normal m'
                ∧ SAMPLE_BUFFER m' = pushSample (SAMPLE_BUFFER m) (sample_of sampler f)) →
  ∃ s', monitorLoop tick s f = Normal s'
        ∧ MONITORING s' = MONITORING s
        ∧ VIDEO_STREAM s' = VIDEO_STREAM s
        ∧ SAMPLE_BUFFER (state s')
          = pushSample (SAMPLE_BUFFER (state s)) (sample_of sampler f)
        ∧ events s'
          = events s ++ if MONITORING s then [requestAnimationFrame] else [].
Proof.
  intros Htick. destruct (Htick (state s) f) as (m' & Hm' & Hb).
  unfold monitorLoop. rw Hm'. by eexists.
Qed.

Lemma monitorLoops_stopped tick (sampler : list byte → num) s f frames :
  (∀ m f, ∃ m', tick m f = Normal m'
                ∧ SAMPLE_BUFFER m' = pushSample (SAMPLE_BUFFER m) (sample_of sampler f)) →
  MONITORING s = false →
  ∃ s', monitorLoops tick true s (f :: frames) = Normal (s', false)
        ∧ MONITORING s' = false
        ∧ SAMPLE_BUFFER (state s')
          = pushSample (SAMPLE_BUFFER (state s)) (sample_of sampler f)
        ∧ events s' = events s.
Proof.
  intros Htick Hstopped.
  destruct (monitorLoop_run tick sampler s f Htick) as (s' & Hs' & Hm & _ & Hb & He).
  rw Hstopped in Hm He. rw app_nil_r in He.
  exists s'. cbn [monitorLoops]. rw Hs'. cbn [mbind completion_bind]. rw Hm.
  by destruct frames.
Qed.

(** X15. [stopMonitoring] keeps the buffer and cancels nothing: the
    call of [monitorLoop] that was pending runs one more tick, which
    pushes one more sample, and asks for no further frame, however
    many frames follow. *)
Theorem stop_lets_one_tick_through b cv lineWidth s f frames :
  (∃ s', monitorLoops (processFrame cv lineWidth) true (stopMonitoring b s) (f :: frames)
         = Normal (s', false)
         ∧ MONITORING s' = false
         ∧ SAMPLE_BUFFER (state s')
           = pushSample (SAMPLE_BUFFER (state s)) (sample_of averageBrightness f)
         ∧ events s' = events (stopMonitoring b s))
  ∧ (∃ s', monitorLoops (processFrame_main cv) true (stopMonitoring b s) (f :: frames)
           = Normal (s', false)
           ∧ MONITORING s' = false
           ∧ SAMPLE_BUFFER (state s')
             = pushSample (SAMPLE_BUFFER (state s)) (sample_of basicAvgLightness f)
           ∧ events s' = events (stopMonitoring b s)).
Proof.
  change (SAMPLE_BUFFER (state s)) with (SAMPLE_BUFFER (state (stopMonitoring b s))).
  split.
  - by apply (monitorLoops_stopped _ averageBrightness); [apply processFrame_pushes|].
  - by apply (monitorLoops_stopped _ basicAvgLightness); [apply processFrame_main_pushes|].
Qed.

Lemma monitorLoops_running tick (sampler : list byte → num) frames s :
  (∀ m f, ∃ m', tick m f = Normal m'
                ∧ SAMPLE_BUFFER m' = pushSample (SAMPLE_BUFFER m) (sample_of sampler f)) →
  MONITORING s = true →
  ∃ s', monitorLoops tick true s frames = Normal (s', true)
        ∧ MONITORING s' = true
        ∧ VIDEO_STREAM s' = VIDEO_STREAM s
        ∧ SAMPLE_BUFFER (state s')
          = fold_left pushSample (sample_of sampler <$> frames) (SAMPLE_BUFFER (state s)).
Proof.
  intros Htick. revert s. induction frames as [|f frames IH]; intros s Hon.
  { by exists s. }
  destruct (monitorLoop_run tick sampler s f Htick) as (s1 & Hs1 & Hm & Hv & Hb & _).
  rw Hon in Hm.
  destruct (IH s1 Hm) as (s' & Hs' & Hm' & Hv' & Hb').
  exists s'. cbn [monitorLoops]. rw Hs1. cbn [mbind completion_bind]. rw Hm Hs'.
  by rw Hm' Hv' Hv Hb' Hb.
Qed.

(** X16. A start that finds a camera sets [MONITORING], schedules the
    loop (after [START_DELAY] in the monitor module, where the display
    is blanked; after 50 ms in the app, where it is not), and the loop
    then keeps itself going: after any run of frames the buffer holds
    the samples of the last [MAX_SAMPLES] of them and nothing of what
    it held before the start. *)
Theorem session_starts_afresh b media camera stream cv lineWidth s frames :
  mediaDevices b = Some media →
  getCamera (enumerateDevices media) = Some camera →
  getUserMedia media (deviceId camera) = inl stream →
  (∃ s', (startMonitoring b s).2 = fulfilled
         ∧ setTimeout START_DELAY ∈ events (startMonitoring b s).1
         ∧ bpm_display (state (startMonitoring b s).1) = None
         ∧ monitorLoops (processFrame cv lineWidth) true (startMonitoring b s).1 frames
           = Normal (s', true)
         ∧ VIDEO_STREAM s' = Some stream
         ∧ SAMPLE_BUFFER (state s')
           = drop (length frames - MAX_SAMPLES) (sample_of averageBrightness <$> frames))
  ∧ (∃ s', (startMonitoring_main b s).2 = fulfilled
           ∧ setTimeout 50 ∈ events (startMonitoring_main b s).1
           ∧ bpm_display (state (startMonitoring_main b s).1) = bpm_display (state s)
           ∧ monitorLoops (processFrame_main cv) true (startMonitoring_main b s).1 frames
             = Normal (s', true)
           ∧ VIDEO_STREAM s' = Some stream
           ∧ SAMPLE_BUFFER (state s')
             = drop (length frames - MAX_SAMPLES) (sample_of basicAvgLightness <$> frames)).
Proof.
  intros Hmedia Hcamera Hstream.
  unfold startMonitoring, startMonitoring_main, startCameraStream.
  rw Hmedia Hcamera Hstream. cbn [fst snd state events bpm_display blank reset].
  split.
  - destruct (monitorLoops_running (processFrame cv lineWidth) averageBrightness frames
      (Session (blank (reset (state s))) true (Some stream)
         ((events s ++ [resize]) ++ [] ++ setTorchStatus b (Some stream) true
          ++ [srcObject (Some stream); play; setTimeout START_DELAY])))
      as (s' & Hs' & _ & Hv & Hb); [apply processFrame_pushes|done|].
    exists s'. split_and!; [done| |done|done|done|].
    + rw !elem_of_app. right. right. right. rw !elem_of_cons. auto.
    + rw Hb /= /resetBuffer pushes_drop /=; [lia|]. by rw length_fmap.
  - destruct (monitorLoops_running (processFrame_main cv) basicAvgLightness frames
      (Session (reset (state s)) true (Some stream)
         (events s ++ [] ++ setTorchStatus b (Some stream) true
          ++ [srcObject (Some stream); play; setTimeout 50])))
      as (s' & Hs' & _ & Hv & Hb); [apply processFrame_main_pushes|done|].
    exists s'. split_and!; [done| |done|done|done|].
    + rw !elem_of_app. right. right. right. rw !elem_of_cons. auto.
    + rw Hb /= /resetBuffer pushes_drop /=; [lia|]. by rw length_fmap.
Qed.

End SessionProps.

Lemma unsupported_browser_is_not_told_witness :
  (initialize_main old_browser (loaded : session float)).2 = None
  ∧ (startMonitoring_main old_browser
       (initialize_main old_browser (loaded : session float)).1).2
    = rejected TypeError
  ∧ (toggleMonitoring_main old_browser
       (initialize_main old_browser (loaded : session float)).1).2
    = fulfilled.
Proof.
  destruct (unsupported_browser_is_not_told old_browser (loaded : session float)
              eq_refl) as (_ & Hinit & Hstart).
  destruct (Hstart eq_refl eq_refl) as (_ & _ & Hrejected & Htoggle).
  split_and!; [by rw Hinit|exact Hrejected|by rw Htoggle].
Defined.

Lemma start_without_a_camera_witness :
  startMonitoring_main desktop (loaded : session float)
  = (Session (reset initial) false None
       [alert ("Failed to access camera!" ++ newline ++ "Error: "
               ++ v8_message "deviceId")],
     fulfilled).
Proof.
  destruct (start_without_a_camera desktop
              {| enumerateDevices := [Device "audioinput" "microphone"];
                 getUserMedia := λ _, inr "NotFoundError" |}
              (loaded : session float) eq_refl) as [Hnone _].
  apply Hnone. by repeat constructor.
Defined.

Lemma session_starts_afresh_witness :
  ∃ s', monitorLoops (processFrame_main (Canvas 300 150)) true
          (startMonitoring_main phone
             (Session (Monitor swing None []) false None [])).1
          (still (RGBA x33 x00 x00 xff) 2 : list (frame float))
        = Normal (s', true)
        ∧ VIDEO_STREAM s' = Some back_camera
        ∧ length (SAMPLE_BUFFER (state s')) = 2.
Proof.
  destruct (session_starts_afresh phone
              {| enumerateDevices := [Device "audioinput" "microphone";
                                      Device "videoinput" "front";
                                      Device "videoinput" "back"];
                 getUserMedia := λ id,
                   if String.eqb id "back" then inl back_camera
                   else inr "NotReadableError" |}
              (Device "videoinput" "back") back_camera
              (Canvas 300 150) (js_of_Z 6)
              (Session (Monitor swing None []) false None [])
              (still (RGBA x33 x00 x00 xff) 2 : list (frame float))
              eq_refl eq_refl eq_refl)
    as [_ (s' & _ & _ & _ & Hloop & Hstream & Hbuffer)].
  exists s'. split_and!; [exact Hloop|exact Hstream|by rw Hbuffer].
Defined.

(** ** Gain and offset *)

Section Times.
Context {num : Type} `{JSNumber num}.

(** [calculateBpm] reads the times of the samples and nothing else. *)
Lemma calculateBpm_times (samples samples' : list (sample num)) :
  time <$> samples = time <$> samples' →
  calculateBpm samples = calculateBpm samples'.
Proof.
  intros Htimes.
  assert (length samples = length samples') as Hlen
    by by rw -(length_fmap time samples) Htimes length_fmap.
  assert (∀ i, time <$> samples !! i = time <$> samples' !! i) as Hat
    by (intros i; by rw -!list_lookup_fmap Htimes).
  unfold calculateBpm. rw -Hlen.
  destruct (length samples <? 2); [done|].
  pose proof (Hat (length samples - 1)) as Hlast. pose proof (Hat 0) as Hfirst.
  destruct (samples !! (length samples - 1)) as [l|],
    (samples' !! (length samples - 1)) as [l'|]; try done.
  destruct (samples !! 0) as [f|], (samples' !! 0) as [f'|]; try done.
  injection Hlast as Hlast. injection Hfirst as Hfirst.
  by rw /= Hlast Hfirst.
Qed.

Lemma lineTos_fmap (g : sample num → sample num) xOf yOf yOf' i previousY samples :
  (∀ s, s ∈ samples → yOf' (g s) = yOf s) →
  lineTos xOf yOf' i previousY (g <$> samples) = lineTos xOf yOf i previousY samples.
Proof.
  revert i previousY. induction samples as [|s samples IH]; intros i previousY Hy; [done|].
  rw /= Hy; [by left|]. rw IH //. intros s' Hs'. apply Hy. by right.
Qed.
End Times.

Section ExactGain.
Local Open Scope Qc_scope.
Implicit Types (samples : list (sample xnum)) (values : list Qc) (gain offset : Qc).

Lemma rescale_values gain offset samples values :
  value <$> samples = XFin <$> values →
  value <$> (rescale gain offset <$> samples)
  = XFin <$> ((λ v, gain * v + offset) <$> values).
Proof.
  revert values. induction samples as [|s samples IH]; intros [|v values] Hv; try done.
  injection Hv as Hs Hv. rw !fmap_cons (IH values Hv). cbn [rescale value].
  by rw Hs.
Qed.

Lemma Qc_sum_rescale gain offset values :
  Qc_sum ((λ v, gain * v + offset) <$> values)
  = gain * Qc_sum values + Qc_of_Z (Z.of_nat (length values)) * offset.
Proof.
  induction values as [|v values IH].
  { rw /= Z2Qc_inj_0. ring. }
  cbn [fmap list_fmap Qc_sum foldr length]. fold (Qc_sum ((λ v, gain * v + offset) <$> values)).
  fold (Qc_sum values).
  rw IH Nat2Z.inj_succ -Z.add_1_l Z2Qc_inj_add Z2Qc_inj_1. ring.
Qed.

Lemma arithmetic_mean_rescale gain offset values :
  values ≠ [] →
  arithmetic_mean ((λ v, gain * v + offset) <$> values)
  = gain * arithmetic_mean values + offset.
Proof.
  intros Hne. unfold arithmetic_mean. rw Qc_sum_rescale length_fmap.
  assert (Qc_of_Z (Z.of_nat (length values)) ≠ 0) as Hn.
  { apply Qc_pos_ne0, Qc_of_nat_pos. destruct values; [done|]. rw /=. lia. }
  field. done.
Qed.

Lemma lt_rescale gain offset (v w : Qc) :
  0 < gain →
  (XFin (gain * v + offset) < XFin (gain * w + offset))%js = (XFin v < XFin w)%js.
Proof.
  intros Hgain. apply bool_decide_ext.
  by rw -Qcplus_lt_mono_r -Qcmult_lt_mono_pos_l.
Qed.

Lemma falls_from_rescale gain offset (m : Qc) p samples values v :
  0 < gain →
  value p = XFin v →
  value <$> samples = XFin <$> values →
  falls_from (XFin (gain * m + offset)) (rescale gain offset p)
    (rescale gain offset <$> samples)
  = rescale gain offset <$> falls_from (XFin m) p samples.
Proof.
  intros Hgain. revert p v values.
  induction samples as [|c samples IH]; intros p v [|w values] Hp Hv; try done.
  injection Hv as Hc Hv.
  cbn [fmap list_fmap falls_from].
  rw (IH c w values) //.
  cbn [rescale value]. rw Hp Hc !XFin_mul !XFin_add !lt_rescale //.
  by destruct (_ && _).
Qed.

Lemma extrema_rescale gain offset samples values lo hi :
  0 < gain →
  value <$> samples = XFin <$> values →
  ∃ lo' hi',
    fold_left extrema_step samples (XFin lo, XFin hi) = (XFin lo', XFin hi')
    ∧ fold_left extrema_step (rescale gain offset <$> samples)
        (XFin (gain * lo + offset), XFin (gain * hi + offset))
      = (XFin (gain * lo' + offset), XFin (gain * hi' + offset)).
Proof.
  intros Hgain. revert values lo hi.
  induction samples as [|s samples IH]; intros [|v values] lo hi Hv; try done.
  { by exists lo, hi. }
  injection Hv as Hs Hv.
  cbn [fmap list_fmap fold_left extrema_step rescale value].
  rw Hs !XFin_mul !XFin_add !lt_rescale //.
  cbn [js_lt xnum_number X.lt].
  destruct (bool_decide (hi < v)), (bool_decide (v < lo)); by apply (IH values).
Qed.

(** Over exact values, a camera of another gain and offset
    ([gain > 0]) changes nothing that is shown: the crossings are the
    same samples, the rate is the same, and the app draws the same
    path; so does the monitor module when only the gain differs. *)
Lemma gain_and_offset_exactly gain offset samples values d :
  0 < gain →
  value <$> samples = XFin <$> values →
  analyzeData samples = Normal d →
  ∃ d',
    analyzeData (rescale gain offset <$> samples) = Normal d'
    ∧ crossings d' = rescale gain offset <$> crossings d
    ∧ calculateBpm (crossings d') = calculateBpm (crossings d)
    ∧ (∀ cv, drawGraph_main cv (rescale gain offset <$> samples) d'
             = drawGraph_main cv samples d)
    ∧ (offset = 0 →
       ∀ cv lineWidth,
         drawGraph cv (XFin lineWidth) (rescale gain offset <$> samples) d'
         = drawGraph cv (XFin lineWidth) samples d).
Proof.
  intros Hgain Hvalues Hd.
  destruct samples as [|s rest], values as [|v0 values]; try done.
  pose proof Hvalues as [= Hs Hrest].
  pose proof (rescale_values gain offset _ _ Hvalues) as Hvalues'.
  destruct (extrema_exact (s :: rest) (v0 :: values) v0 v0 Hvalues)
    as (lo & hi & Hfold & _ & _ & Hall & _ & _).
  destruct (extrema_rescale gain offset (s :: rest) (v0 :: values) v0 v0 Hgain Hvalues)
    as (lo1 & hi1 & Hfold1 & Hfold').
  rw Hfold in Hfold1. injection Hfold1 as <- <-.
  rw analyzeData_cons in Hd. cbv zeta in Hd.
  rw Hvalues mean_exact // Hs Hfold in Hd. injection Hd as <-.
  change (rescale gain offset <$> s :: rest)
    with (rescale gain offset s :: (rescale gain offset <$> rest)) at 1.
  rw analyzeData_cons. cbv zeta.
  change (rescale gain offset s :: (rescale gain offset <$> rest))
    with (rescale gain offset <$> s :: rest).
  rw Hvalues' mean_exact // arithmetic_mean_rescale //.
  cbn [rescale value]. rw Hs XFin_mul XFin_add Hfold'.
  eexists. split; [done|]. cbn [crossings min max fst snd].
  assert (getAverageCrossings (rescale gain offset <$> s :: rest)
            (XFin (gain * arithmetic_mean (v0 :: values) + offset))
          = rescale gain offset
            <$> getAverageCrossings (s :: rest) (XFin (arithmetic_mean (v0 :: values))))
    as Hcross.
  { change (rescale gain offset <$> s :: rest)
      with (rescale gain offset s :: (rescale gain offset <$> rest)).
    rw !getAverageCrossings_cons. by apply (falls_from_rescale _ _ _ _ _ values v0). }
  pose proof (samples_between _ _ lo hi Hvalues Hall) as Hsample.
  pose proof (Qc_pos_ne0 _ Hgain) as Hgain0.
  set (d := DataStats _ (XFin lo) _ _ _).
  set (d' := DataStats _ (XFin (gain * lo + offset)) _ _ _).
  assert (lo ≠ hi → hi - lo ≠ 0) as Hrange.
  { intros Hne E. apply Hne. replace hi with (hi - lo + lo) by ring. rw E. ring. }
  split_and!.
  - done.
  - rw Hcross. apply calculateBpm_times.
    rw -list_fmap_compose. by apply list_fmap_ext.
  - intros cv. unfold drawGraph_main.
    assert (graph_x cv (rescale gain offset <$> s :: rest) = graph_x cv (s :: rest)) as ->
      by by rw /graph_x length_fmap.
    apply lineTos_fmap. intros s' (v & Hv & Hlo & Hhi)%Hsample.
    assert (value (rescale gain offset s') = XFin (gain * v + offset)) as Hv'
      by by rw /= Hv.
    destruct (decide (lo = hi)) as [Heq|Hne].
    + assert (v = lo) as -> by (apply Qcle_antisym; [by rw Heq|done]).
      rw (graph_y_main_flat cv (gain * lo + offset) d') //; [by rw /= -Heq|].
      by rw (graph_y_main_flat cv lo d) //= -Heq.
    + assert (gain * hi + offset - (gain * lo + offset) ≠ 0) as Hrange'.
      { replace (gain * hi + offset - (gain * lo + offset)) with (gain * (hi - lo))
          by ring. by apply Qcmult_ne0, Hrange. }
      rw (graph_y_main_exact cv d' _ _ _ _ eq_refl eq_refl Hv' Hrange').
      rw (graph_y_main_exact cv d s' _ _ _ eq_refl eq_refl Hv (Hrange Hne)).
      f_equal. field. split; [by apply Hrange|done].
  - intros -> cv lineWidth. unfold drawGraph.
    assert (graph_x cv (rescale gain 0 <$> s :: rest) = graph_x cv (s :: rest)) as ->
      by by rw /graph_x length_fmap.
    apply lineTos_fmap. intros s' (v & Hv & Hlo & Hhi)%Hsample.
    assert (value (rescale gain 0 s') = XFin (gain * v + 0)) as Hv'
      by by rw /= Hv.
    destruct (decide (v = 0)) as [->|Hv0].
    { unfold graph_y. rw Hv' Hv Qcmult_0_r Qcplus_0_r !js_of_Z_exact Z2Qc_inj_0.
      by rw /=. }
    destruct (decide (lo = hi)) as [Heq|Hne].
    + assert (v = lo) as -> by (apply Qcle_antisym; [by rw Heq|done]).
      rw (graph_y_flat cv lineWidth (gain * lo + 0) d') //; [by rw /= -Heq| |].
      { rw Qcplus_0_r. by apply Qcmult_ne0. }
      by rw (graph_y_flat cv lineWidth lo d) //= -Heq.
    + assert (gain * hi + 0 - (gain * lo + 0) ≠ 0) as Hrange'.
      { replace (gain * hi + 0 - (gain * lo + 0)) with (gain * (hi - lo))
          by ring. by apply Qcmult_ne0, Hrange. }
      assert (gain * v + 0 ≠ 0) as Hv0' by (rw Qcplus_0_r; by apply Qcmult_ne0).
      rw (graph_y_exact cv lineWidth d' _ _ _ _ eq_refl eq_refl Hv' Hrange').
      rw (graph_y_exact cv lineWidth d s' _ _ _ eq_refl eq_refl Hv (Hrange Hne)).
      rw !bool_decide_eq_false_2 //.
      f_equal. field. split; [by apply Hrange|].
      replace (gain * hi - gain * lo) with (gain * (hi - lo)) by ring.
      by apply Qcmult_ne0, Hrange.
Qed.

End ExactGain.

(** ** What the display receives *)

Section Display.
Local Open Scope Qc_scope.

Lemma js_truthy_exact (q : Qc) : js_truthy (XFin q) = negb (bool_decide (q = 0)).
Proof.
  unfold js_truthy. rw js_of_Z_exact Z2Qc_inj_0.
  assert ((XFin q == XFin q)%js = true) as -> by by apply bool_decide_eq_true_2.
  cbn [andb]. f_equal. apply bool_decide_ext. split; [by intros [= ->]|by intros ->].
Qed.

(** [Math.round] gives the integer within a half of its argument, the
    upper one of two. *)
Lemma round_nearest (q : Qc) :
  ∃ n : Z, js_round (XFin q) = XFin (Qc_of_Z n)
           ∧ q - Q2Qc (1 # 2) < Qc_of_Z n ≤ q + Q2Qc (1 # 2).
Proof.
  eexists. split; [reflexivity|].
  pose proof (Qfloor_le (q + Qred (1 # 2))) as Hle.
  pose proof (Qlt_floor (q + Qred (1 # 2))) as Hlt.
  setoid_rewrite inject_Z_plus in Hlt.
  unfold Qclt, Qcle. cbn [this Qc_of_Z Q2Qc Qcminus Qcplus Qcopp].
  set (n := Qfloor (q + Qred (1 # 2))) in *. clearbody n.
  repeat setoid_rewrite Qred_correct.
  repeat setoid_rewrite Qred_correct in Hle.
  repeat setoid_rewrite Qred_correct in Hlt.
  change (inject_Z 1) with 1%Q in Hlt. split; lra.
Qed.

(** X18. Over exact values the display is sent a rate only when
    [calculateBpm] gave a number other than 0 and [NaN]; what it is
    sent is then an integer, within half a beat of the rate, or the
    infinity the rate was; otherwise it keeps what it had. *)
Theorem display_shows_the_nearest_integer (shown : option xnum) :
  (∀ bpm : Qc, bpm ≠ 0 →
     ∃ n : Z, showBpm shown (Some (XFin bpm)) = Some (XFin (Qc_of_Z n))
              ∧ bpm - Q2Qc (1 # 2) < Qc_of_Z n ≤ bpm + Q2Qc (1 # 2))
  ∧ showBpm shown (Some (XFin 0)) = shown
  ∧ showBpm shown (Some XNaN) = shown
  ∧ showBpm shown None = shown
  ∧ showBpm shown (Some XPosInf) = Some XPosInf
  ∧ showBpm shown (Some XNegInf) = Some XNegInf.
Proof.
  split_and!; try done.
  intros bpm Hbpm. destruct (round_nearest bpm) as (n & Hn & Hnear).
  exists n. split; [|done].
  by rw /showBpm js_truthy_exact bool_decide_eq_false_2 //= -Hn.
Qed.

End Display.

(** * The code on doubles *)

(** ** Doubles that hold integers *)

Section Integers.
Implicit Types (p : PrimInt63.int → bool) (z : Z).

Lemma int_succ (i : PrimInt63.int) (k : Z) :
  (0 ≤ k)%Z → (Uint63.to_Z i + k < Uint63.wB)%Z →
  Uint63.to_Z (PrimInt63.add i (Uint63.of_Z k)) = (Uint63.to_Z i + k)%Z.
Proof.
  intros Hk Hsmall. pose proof (Uint63.to_Z_bounded i) as Hi.
  rw Uint63.add_spec Uint63.of_Z_spec.
  rw (Z.mod_small k); [lia|]. rw Z.mod_small; lia.
Qed.

Lemma all_from_spec fuel p (i : PrimInt63.int) :
  (Uint63.to_Z i + Z.of_nat fuel < Uint63.wB)%Z →
  all_from fuel p i = true →
  ∀ z, (Uint63.to_Z i ≤ z < Uint63.to_Z i + Z.of_nat fuel)%Z →
       p (Uint63.of_Z z) = true.
Proof.
  revert i. induction fuel as [|fuel IH]; intros i Hsmall Hall z Hz; [lia|].
  cbn [all_from] in Hall. apply andb_true_iff in Hall as [Hi Hall].
  destruct (decide (z = Uint63.to_Z i)) as [->|Hne]; [by rw Uint63.of_to_Z|].
  pose proof (int_succ i 1 ltac:(lia) ltac:(lia)) as Hsucc.
  change (Uint63.of_Z 1) with int_1 in Hsucc.
  apply (IH (PrimInt63.add i int_1)); [lia|done|lia].
Qed.

Lemma all_blocks_spec blocks p (i : PrimInt63.int) :
  (Uint63.to_Z i + 1000 * Z.of_nat blocks < Uint63.wB)%Z →
  all_blocks blocks p i = true →
  ∀ z, (Uint63.to_Z i ≤ z < Uint63.to_Z i + 1000 * Z.of_nat blocks)%Z →
       p (Uint63.of_Z z) = true.
Proof.
  revert i. induction blocks as [|blocks IH]; intros i Hsmall Hall z Hz; [lia|].
  cbn [all_blocks] in Hall. apply andb_true_iff in Hall as [Hi Hall].
  destruct (decide (z < Uint63.to_Z i + 1000)%Z) as [Hlt|Hge].
  - apply (all_from_spec 1000 p i); [lia|done|lia].
  - pose proof (int_succ i 1000 ltac:(lia) ltac:(lia)) as Hsucc.
    change (Uint63.of_Z 1000) with int_1000 in Hsucc.
    apply (IH (PrimInt63.add i int_1000)); [lia|done|lia].
Qed.

(** The double of an integer, as [js_of_Z] builds it, is the one the
    machine conversion gives. *)
Lemma js_of_Z_of_uint63 z :
  (0 ≤ z < Uint63.wB)%Z → (js_of_Z z : float) = of_uint63 (Uint63.of_Z z).
Proof.
  intros Hz. rw -(SF2Prim_Prim2SF (of_uint63 (Uint63.of_Z z))) of_uint63_spec.
  by rw Uint63.of_Z_spec Z.mod_small.
Qed.

(** Every total a frame of 30 x 30 pixels can reach takes a byte more
    without rounding. *)
Lemma totals_add_bytes_exactly :
  all_blocks 689 adds_bytes_exactly int_0 = true.
Proof. vm_compute. reflexivity. Qed.

Lemma js_add_byte z (b : Z) :
  (0 ≤ z < 689000)%Z → (0 ≤ b ≤ 255)%Z →
  (js_of_Z z + js_of_Z b)%js = (js_of_Z (z + b) : float).
Proof.
  intros Hz Hb.
  assert (Uint63.to_Z int_0 = 0%Z) as Hzero by reflexivity.
  assert (Uint63.wB = 9223372036854775808%Z) as HwB by reflexivity.
  assert (adds_bytes_exactly (Uint63.of_Z z) = true) as Hadds.
  { apply (all_blocks_spec 689 adds_bytes_exactly int_0);
      [rw Hzero HwB; lia|exact totals_add_bytes_exactly|rw Hzero; lia]. }
  assert (PrimFloat.Leibniz.eqb
            (of_uint63 (Uint63.of_Z z) + of_uint63 (Uint63.of_Z b))%float
            (of_uint63 (PrimInt63.add (Uint63.of_Z z) (Uint63.of_Z b))) = true) as Hadd.
  { apply (all_from_spec 256
             (λ b, PrimFloat.Leibniz.eqb (of_uint63 (Uint63.of_Z z) + of_uint63 b)%float
                     (of_uint63 (PrimInt63.add (Uint63.of_Z z) b)))
             int_0);
      [rw Hzero HwB; lia|exact Hadds|rw Hzero; lia]. }
  apply Leibniz.eqb_spec in Hadd.
  rw !js_of_Z_of_uint63; [rw HwB; lia|rw HwB; lia|rw HwB; lia|].
  etrans; [exact Hadd|]. f_equal. apply Uint63.to_Z_inj.
  rw Uint63.add_spec !Uint63.of_Z_spec HwB.
  rw (Z.mod_small z); [lia|]. by rw (Z.mod_small b); [lia|].
Qed.

End Integers.

(** ** The rate on doubles *)

Section DoubleRate.




End DoubleRate.

(** ** The samplers on doubles *)

Section DoubleSamplers.
Implicit Types (pixels : list rgba) (z : Z).

Lemma sum_red_green_double pixels z :
  (0 ≤ z)%Z → (z + 510 * Z.of_nat (length pixels) < 689000)%Z →
  fold_left (λ sum p, sum + js_of_Z (intensity (red p))
                      + js_of_Z (intensity (green p)))%js
    pixels (js_of_Z z : float)
  = js_of_Z (z + total red_green pixels).
Proof.
  revert z. induction pixels as [|p pixels IH]; intros z Hz Hsmall;
    [by rw /= Z.add_0_r|].
  pose proof (intensity_range (red p)). pose proof (intensity_range (green p)).
  cbn [fold_left length total foldr] in *.
  fold (total red_green pixels).
  rw !js_add_byte; [lia..|].
  rw IH; [lia..|]. f_equal. unfold red_green. lia.
Qed.

Lemma sum_red_green_blue_double pixels z :
  (0 ≤ z)%Z → (z + 765 * Z.of_nat (length pixels) < 689000)%Z →
  fold_left (λ sum p, sum + js_of_Z (intensity (red p))
                      + js_of_Z (intensity (green p))
                      + js_of_Z (intensity (blue p)))%js
    pixels (js_of_Z z : float)
  = js_of_Z (z + total red_green_blue pixels).
Proof.
  revert z. induction pixels as [|p pixels IH]; intros z Hz Hsmall;
    [by rw /= Z.add_0_r|].
  pose proof (intensity_range (red p)). pose proof (intensity_range (green p)).
  pose proof (intensity_range (blue p)).
  cbn [fold_left length total foldr] in *.
  fold (total red_green_blue pixels).
  rw !js_add_byte; [lia..|].
  rw IH; [lia..|]. f_equal. unfold red_green_blue. lia.
Qed.

Lemma averageBrightness_double pixels :
  length pixels = IMAGE_WIDTH * IMAGE_HEIGHT →
  averageBrightness (imageData pixels)
  = (js_of_Z (total red_green pixels) / js_of_Z 1800 / js_of_Z 255 : float)%js.
Proof.
  intros Hlen. rw averageBrightness_pixels Hlen.
  rw (sum_red_green_double pixels 0); [lia|rw Hlen; reflexivity|].
  rw Z.add_0_l. do 2 f_equal; vm_compute; reflexivity.
Qed.

Lemma basicAvgLightness_double pixels :
  length pixels = IMAGE_WIDTH * IMAGE_HEIGHT →
  basicAvgLightness (imageData pixels)
  = (js_of_Z (total red_green_blue pixels) / js_of_Z 2700 / js_of_Z 255 : float)%js.
Proof.
  intros Hlen. rw basicAvgLightness_pixels Hlen.
  rw (sum_red_green_blue_double pixels 0); [lia|rw Hlen; reflexivity|].
  rw Z.add_0_l. do 2 f_equal; vm_compute; reflexivity.
Qed.

Lemma red_green_totals_normalize :
  all_blocks 459 (normalizes (js_of_Z 1800)) int_0
  && all_from 1 (normalizes (js_of_Z 1800)) (Uint63.of_Z (1000 * Z.of_nat 459))
  = true.
Proof. vm_compute. reflexivity. Qed.

Lemma red_green_blue_totals_normalize :
  all_blocks 688 (normalizes (js_of_Z 2700)) int_0
  && all_from 501 (normalizes (js_of_Z 2700)) (Uint63.of_Z (1000 * Z.of_nat 688))
  = true.
Proof. vm_compute. reflexivity. Qed.

Lemma normalizes_spec (divisor : float) (blocks more : nat) z :
  all_blocks blocks (normalizes divisor) int_0
  && all_from more (normalizes divisor) (Uint63.of_Z (1000 * Z.of_nat blocks)) = true →
  (0 ≤ z < 1000 * Z.of_nat blocks + Z.of_nat more)%Z →
  (blocks ≤ 1000)%nat → (more ≤ 1000)%nat →
  let normalized := (js_of_Z z / divisor / js_of_Z 255 : float)%js in
  (0 <=? normalized)%float = true ∧ (normalized <=? 1)%float = true.
Proof.
  intros [Hblocks Hmore]%andb_true_iff Hz Hb Hm normalized.
  assert (Uint63.wB = 9223372036854775808%Z) as HwB by reflexivity.
  assert (Uint63.to_Z int_0 = 0%Z) as Hzero by reflexivity.
  assert (Uint63.to_Z (Uint63.of_Z (1000 * Z.of_nat blocks))
          = (1000 * Z.of_nat blocks)%Z) as Hstart
    by (rw Uint63.of_Z_spec; apply Z.mod_small; rw HwB; lia).
  assert (normalizes divisor (Uint63.of_Z z) = true) as Hcheck.
  { destruct (decide (z < 1000 * Z.of_nat blocks)%Z).
    - apply (all_blocks_spec blocks (normalizes divisor) int_0);
        [rw Hzero HwB; lia|done|rw Hzero; lia].
    - apply (all_from_spec more (normalizes divisor)
               (Uint63.of_Z (1000 * Z.of_nat blocks)));
        [rw Hstart HwB; lia|done|rw Hstart; lia]. }
  unfold normalizes in Hcheck. apply andb_true_iff in Hcheck.
  subst normalized. rw js_of_Z_of_uint63; [rw HwB; lia|]. exact Hcheck.
Qed.

Lemma total_red_green_at_most pixels :
  length pixels = IMAGE_WIDTH * IMAGE_HEIGHT →
  (0 ≤ total red_green pixels < 459001)%Z.
Proof.
  intros Hlen. pose proof (total_red_green_range pixels) as Hrange.
  rw Hlen in Hrange. change (Z.of_nat (IMAGE_WIDTH * IMAGE_HEIGHT)) with 900%Z in Hrange.
  lia.
Qed.

Lemma total_red_green_blue_at_most pixels :
  length pixels = IMAGE_WIDTH * IMAGE_HEIGHT →
  (0 ≤ total red_green_blue pixels < 688501)%Z.
Proof.
  intros Hlen. pose proof (total_red_green_blue_range pixels) as Hrange.
  rw Hlen in Hrange. change (Z.of_nat (IMAGE_WIDTH * IMAGE_HEIGHT)) with 900%Z in Hrange.
  lia.
Qed.

(** The samplers on doubles, for the frames the code takes. *)
Lemma samplers_on_doubles pixels :
  length pixels = IMAGE_WIDTH * IMAGE_HEIGHT →
  let brightness := averageBrightness (imageData pixels) : float in
  let lightness := basicAvgLightness (imageData pixels) : float in
  brightness = (js_of_Z (total red_green pixels) / js_of_Z 1800 / js_of_Z 255)%js
  ∧ (0 <=? brightness)%float = true ∧ (brightness <=? 1)%float = true
  ∧ lightness
    = (js_of_Z (total red_green_blue pixels) / js_of_Z 2700 / js_of_Z 255)%js
  ∧ (0 <=? lightness)%float = true ∧ (lightness <=? 1)%float = true.
Proof.
  intros Hlen brightness lightness. subst brightness lightness.
  rw (averageBrightness_double pixels Hlen) (basicAvgLightness_double pixels Hlen).
  pose proof (normalizes_spec (js_of_Z 1800) 459 1 (total red_green pixels)
                red_green_totals_normalize) as Hrg.
  pose proof (normalizes_spec (js_of_Z 2700) 688 501 (total red_green_blue pixels)
                red_green_blue_totals_normalize) as Hrgb.
  pose proof (total_red_green_at_most pixels Hlen).
  pose proof (total_red_green_blue_at_most pixels Hlen).
  destruct Hrg as [? ?]; [lia|lia|lia|].
  destruct Hrgb as [? ?]; [lia|lia|lia|].
  split_and!; [reflexivity|assumption|assumption|reflexivity|assumption|assumption].
Qed.

End DoubleSamplers.

(** ** Where exact numbers and doubles part *)

(** Between two frames of one shade a brighter one raises the sample
    on doubles a hair, and the point drawn for it lies below the band
    the stroke is meant to keep to: [y] is greater than
    [height - lineWidth = 144] on a canvas 150 high, in the monitor
    module and in the app. *)
Lemma graph_overshoots_on_doubles :
  (m ← ticks (processFrame (Canvas 300 150) (js_of_Z 6)) initial
         [plain_frame (RGBA x01 x00 x00 xff) 1000;
          mixed_frame 26 (RGBA x02 x00 x00 xff) (RGBA x01 x00 x00 xff) 1016
          : frame float];
   mret ((λ p, (js_of_Z 144 < p.2)%js) <$> graph m))
  = Normal [false; true]
  ∧ (m ← ticks (processFrame_main (Canvas 300 150)) initial
           [plain_frame (RGBA x01 x00 x00 xff) 1000;
            mixed_frame 39 (RGBA x02 x00 x00 xff) (RGBA x01 x00 x00 xff) 1016
            : frame float];
     mret ((λ p, (js_of_Z 144 < p.2)%js) <$> graph m))
    = Normal [false; true].
Proof. vm_compute. done. Qed.

(** On doubles the gain of the camera matters: frames of red 51, 153
    and 102 give the samples [0.1, 0.3, 0.2] and one crossing, frames
    three times as bright give none. *)
Lemma gain_matters_on_doubles :
  (m ← ticks (processFrame (Canvas 300 150) (js_of_Z 6)) initial
         [plain_frame (RGBA x33 x00 x00 xff) 1000;
          plain_frame (RGBA x99 x00 x00 xff) 1016;
          plain_frame (RGBA x66 x00 x00 xff) 1032 : frame float];
   d ← analyzeData (SAMPLE_BUFFER m); mret (length (crossings d)))
  = Normal 1
  ∧ (m ← ticks (processFrame (Canvas 300 150) (js_of_Z 6)) initial
           [plain_frame (RGBA x99 x00 x00 xff) 1000;
            plain_frame (RGBA xe6 xe5 x00 xff) 1016;
            plain_frame (RGBA x99 x99 x00 xff) 1032 : frame float];
     d ← analyzeData (SAMPLE_BUFFER m); mret (length (crossings d)))
    = Normal 0.
Proof. vm_compute. done. Qed.

(** The samples of the brighter frames are three times those of the
    others. *)
Lemma gain_three :
  sample_of averageBrightness
  <$> [plain_frame (RGBA x99 x00 x00 xff) 1000;
       plain_frame (RGBA xe6 xe5 x00 xff) 1016;
       plain_frame (RGBA x99 x99 x00 xff) 1032 : frame xnum]
  = rescale (Qc_of_Z 3) (Qc_of_Z 0)
    <$> (sample_of averageBrightness
         <$> [plain_frame (RGBA x33 x00 x00 xff) 1000;
              plain_frame (RGBA x99 x00 x00 xff) 1016;
              plain_frame (RGBA x66 x00 x00 xff) 1032 : frame xnum]).
Proof.
  vm_compute.
  repeat match goal with
         | |- @eq Qc _ _ => by apply Qc_is_canon
         | |- _ => f_equal
         end.
Qed.

(** * The claims about the arithmetic *)

Section Arithmetic.
Local Open Scope Qc_scope.

(** C1. In [getAverageCrossings] (the same function in both files) the
    crossing list holds exactly the samples at the positions [i >= 1]
    whose predecessor lies strictly above the average and which lie
    strictly below it themselves, in the order of the buffer, and a
    buffer of one sample has no crossing; this for any numbers.  The
    average [analyzeData] passes is the sum of the values as the code
    adds them, divided by their count: over exact values that is the
    arithmetic mean of the sequence, on doubles it is that mean up to
    rounding. *)
Theorem crossings_are_falls_through_mean :
  (∀ num `(JSNumber num) `(!JSNumberLaws num) (samples : list (sample num)),
     (∀ average,
        getAverageCrossings samples average = crossings_by_position samples average)
     ∧ (∀ d, analyzeData samples = Normal d →
          average d = mean (value <$> samples)
          ∧ crossings d = crossings_by_position samples (mean (value <$> samples)))
     ∧ (length samples = 1%nat →
          ∀ average, getAverageCrossings samples average = []))
  ∧ (∀ (samples : list (sample xnum)) (values : list Qc) d,
       value <$> samples = XFin <$> values →
       analyzeData samples = Normal d →
       average d = XFin (arithmetic_mean values)
       ∧ crossings d
         = crossings_by_position samples (XFin (arithmetic_mean values))).
Proof.
  split.
  - intros num ? ? samples. by apply crossings_of_the_computed_mean.
  - intros samples values d Hvalues Hd.
    destruct (crossings_of_the_computed_mean samples) as (_ & Hmean & _).
    destruct (Hmean d Hd) as [-> ->].
    assert (values ≠ []) as Hne.
    { intros ->. by destruct samples. }
    by rw Hvalues mean_exact.
Qed.

Lemma crossings_are_falls_through_mean_witness :
  (d ← analyzeData (swing : list (sample float)); mret (crossings d))
  = Normal [ Sample (js_of_Q 0.25) (js_of_Z 1400);
             Sample (js_of_Q 0.25) (js_of_Z 2200);
             Sample (js_of_Q 0.25) (js_of_Z 3000) ]
  ∧ getAverageCrossings (take 1 (swing : list (sample float))) (js_of_Q 0.5) = []
  ∧ (d ← analyzeData (swing : list (sample xnum)); mret (average d))
    = Normal (XFin (arithmetic_mean swing_values)).
Proof.
  destruct crossings_are_falls_through_mean as [Hany Hexact].
  pose proof (Hany float _ _ swing) as (_ & Hc & _).
  pose proof (Hany float _ _ (take 1 swing)) as (_ & _ & H1).
  split_and!.
  - destruct (analyzeData (swing : list (sample float))) as [d|e] eqn:E;
      [|by vm_compute in E].
    cbn [mbind completion_bind mret completion_ret].
    destruct (Hc d eq_refl) as [_ ->]. vm_compute. reflexivity.
  - apply H1. reflexivity.
  - destruct (analyzeData (swing : list (sample xnum))) as [d|e] eqn:E;
      [|by vm_compute in E].
    cbn [mbind completion_bind mret completion_ret].
    assert (value <$> (swing : list (sample xnum)) = XFin <$> swing_values)
      as Hvalues by reflexivity.
    by destruct (Hexact swing swing_values d Hvalues E) as [-> _].
Defined.

(** C1 does not hold of the arithmetic mean on doubles.  Frames of red
    51, 153 and 102 give the samples [0.1, 0.3, 0.2]; their sum is
    rounded up and the average the code compares with is
    0.20000000000000004.  The third sample, below it and after one
    above it, is returned as a crossing, though it is not below the
    arithmetic mean of the three doubles: the same buffer analysed in
    exact numbers has no crossing. *)
Lemma rounded_mean_adds_a_crossing :
  let frames :=
    [plain_frame (RGBA x33 x00 x00 xff) 1000;
     plain_frame (RGBA x99 x00 x00 xff) 1016;
     plain_frame (RGBA x66 x00 x00 xff) 1032] : list (frame float) in
  (m ← ticks (processFrame (Canvas 300 150) (js_of_Z 6)) initial frames;
   d ← analyzeData (SAMPLE_BUFFER m);
   x ← analyzeData (exact_sample <$> SAMPLE_BUFFER m);
   mret (value <$> SAMPLE_BUFFER m, value <$> crossings d, length (crossings x)))
  = Normal ([(js_of_Z 1 / js_of_Z 10)%js; (js_of_Z 3 / js_of_Z 10)%js;
             (js_of_Z 1 / js_of_Z 5)%js],
            [(js_of_Z 1 / js_of_Z 5)%js], 0%nat).
Proof. vm_compute. reflexivity. Qed.

(** C5. For a frame of [W * H >= 1] pixels, [averageBrightness] of the
    monitor module adds the red and green intensities of all pixels
    (blue and alpha play no part) and divides the sum by half the
    length of the data and then by 255; [basicAvgLightness] of the app
    adds the blue as well and divides by three quarters of the length
    and by 255.  Over exact values these are the sums over
    [totalPixels * 2 * 255] and [totalPixels * 3 * 255], between 0 and
    1.  On doubles, for the 30 x 30 frame the code samples, the sums
    are exact, the results are the sums divided by 1800 (2700 in the
    app) and then by 255, each division rounded, and they lie between
    0 and 1. *)
Theorem samplers_average_their_channels :
  (∀ (W H : nat) pixels,
     length pixels = (W * H)%nat →
     (1 ≤ W * H)%nat →
     let totalPixels := Qc_of_Z (Z.of_nat (W * H)) in
     let sumRG := Qc_of_Z (total red_green pixels) in
     let sumRGB := Qc_of_Z (total red_green_blue pixels) in
     (averageBrightness (imageData pixels)
      = XFin (sumRG / (totalPixels * Qc_of_Z 2 * Qc_of_Z 255))
      ∧ 0 ≤ sumRG / (totalPixels * Qc_of_Z 2 * Qc_of_Z 255) ≤ 1)
     ∧ (basicAvgLightness (imageData pixels)
        = XFin (sumRGB / (totalPixels * Qc_of_Z 3 * Qc_of_Z 255))
        ∧ 0 ≤ sumRGB / (totalPixels * Qc_of_Z 3 * Qc_of_Z 255) ≤ 1))
  ∧ (∀ pixels,
       length pixels = (IMAGE_WIDTH * IMAGE_HEIGHT)%nat →
       let brightness := averageBrightness (imageData pixels) : float in
       let lightness := basicAvgLightness (imageData pixels) : float in
       brightness
       = (js_of_Z (total red_green pixels) / js_of_Z 1800 / js_of_Z 255)%js
       ∧ (0 <=? brightness)%float = true ∧ (brightness <=? 1)%float = true
       ∧ lightness
         = (js_of_Z (total red_green_blue pixels) / js_of_Z 2700 / js_of_Z 255)%js
       ∧ (0 <=? lightness)%float = true ∧ (lightness <=? 1)%float = true).
Proof.
  split.
  - intros W H pixels. apply samplers_average_exactly.
  - intros pixels. apply samplers_on_doubles.
Qed.

Lemma samplers_average_their_channels_witness :
  (averageBrightness (imageData [RGBA x33 x00 x10 xff; RGBA xff x80 x20 xff])
   = XFin (Q2Qc (217 # 510))
   ∧ basicAvgLightness (imageData [RGBA x33 x00 x10 xff; RGBA xff x80 x20 xff])
     = XFin (Q2Qc (241 # 765)))
  ∧ (averageBrightness (imageData (replicate 900 (RGBA x33 x00 x10 xff))) : float)
    = (js_of_Z 45900 / js_of_Z 1800 / js_of_Z 255)%js
  ∧ ((averageBrightness (imageData (replicate 900 (RGBA x33 x00 x10 xff))) : float)
     <=? 1)%float = true.
Proof.
  destruct samplers_average_their_channels as [Hexact Hdoubles].
  split.
  - destruct (Hexact 2%nat 1%nat
                [RGBA x33 x00 x10 xff; RGBA xff x80 x20 xff] eq_refl ltac:(lia))
      as [[-> _] [-> _]].
    split; f_equal; by apply Qc_is_canon.
  - pose proof (Hdoubles (replicate 900 (RGBA x33 x00 x10 xff)) eq_refl)
      as (Hvalue & _ & Hle & _).
    split; [exact Hvalue|exact Hle].
Defined.




(** X10. Over exact values, for a buffer that is not flat, of at most
    [MAX_SAMPLES] samples, on a canvas at least two stroke widths
    high: every point either [drawGraph] emits has [0 <= x <= width]
    and [lineWidth <= y <= height - lineWidth], the stroke width being
    6 in the app.  On doubles the bound on [y] holds only up to
    rounding: on a canvas 150 high both functions emit a point with
    [y > 144]. *)
Theorem graph_stays_inside_the_canvas :
  (∀ cv (lineWidth : Qc) (samples : list (sample xnum)) (values : list Qc) d,
     value <$> samples = XFin <$> values →
     analyzeData samples = Normal d →
     min d ≠ max d →
     (length samples ≤ MAX_SAMPLES)%nat →
     (lineWidth * Qc_of_Z 2 ≤ Qc_of_Z (Z.of_N (height cv)) →
      Forall (inside cv lineWidth) (drawGraph cv (XFin lineWidth) samples d))
     ∧ (Qc_of_Z 6 * Qc_of_Z 2 ≤ Qc_of_Z (Z.of_N (height cv)) →
        Forall (inside cv (Qc_of_Z 6)) (drawGraph_main cv samples d)))
  ∧ ((m ← ticks (processFrame (Canvas 300 150) (js_of_Z 6)) initial
            [plain_frame (RGBA x01 x00 x00 xff) 1000;
             mixed_frame 26 (RGBA x02 x00 x00 xff) (RGBA x01 x00 x00 xff) 1016
             : frame float];
      mret ((λ p, (js_of_Z 144 < p.2)%js) <$> graph m))
     = Normal [false; true]
     ∧ (m ← ticks (processFrame_main (Canvas 300 150)) initial
              [plain_frame (RGBA x01 x00 x00 xff) 1000;
               mixed_frame 39 (RGBA x02 x00 x00 xff) (RGBA x01 x00 x00 xff) 1016
               : frame float];
        mret ((λ p, (js_of_Z 144 < p.2)%js) <$> graph m))
       = Normal [false; true]).
Proof.
  split; [|exact graph_overshoots_on_doubles].
  intros cv lineWidth samples values d. apply graph_inside_exactly.
Qed.

Lemma graph_stays_inside_the_canvas_witness :
  ∃ d, analyzeData (swing : list (sample xnum)) = Normal d
       ∧ Forall (inside (Canvas 300 150) (Qc_of_Z 6))
           (drawGraph_main (Canvas 300 150) swing d).
Proof.
  destruct (analyzeData (swing : list (sample xnum))) as [d|e] eqn:E;
    [|by vm_compute in E].
  exists d. split; [done|].
  destruct graph_stays_inside_the_canvas as [Hexact _].
  destruct (Hexact (Canvas 300 150) (Qc_of_Z 6) swing swing_values d)
    as [_ Hmain];
    [reflexivity|exact E| |vm_compute; lia|by apply Hmain].
  vm_compute in E. injection E as <-. by vm_compute.
Defined.

(** X17. Over exact values, a camera of another gain and offset
    ([gain > 0]) changes nothing that is shown: the crossings are the
    same samples, the rate is the same, and the app draws the same
    path; so does the monitor module when only the gain differs.  On
    doubles this holds only up to rounding: of two runs of three
    frames, the second three times as bright as the first, the first
    has one crossing and the second none. *)
Theorem analysis_ignores_gain_and_offset :
  (∀ (gain offset : Qc) (samples : list (sample xnum)) (values : list Qc) d,
     0 < gain →
     value <$> samples = XFin <$> values →
     analyzeData samples = Normal d →
     ∃ d',
       analyzeData (rescale gain offset <$> samples) = Normal d'
       ∧ crossings d' = rescale gain offset <$> crossings d
       ∧ calculateBpm (crossings d') = calculateBpm (crossings d)
       ∧ (∀ cv, drawGraph_main cv (rescale gain offset <$> samples) d'
                = drawGraph_main cv samples d)
       ∧ (offset = 0 →
          ∀ cv lineWidth,
            drawGraph cv (XFin lineWidth) (rescale gain offset <$> samples) d'
            = drawGraph cv (XFin lineWidth) samples d))
  ∧ (sample_of averageBrightness
      <$> [plain_frame (RGBA x99 x00 x00 xff) 1000;
           plain_frame (RGBA xe6 xe5 x00 xff) 1016;
           plain_frame (RGBA x99 x99 x00 xff) 1032 : frame xnum]
      = rescale (Qc_of_Z 3) (Qc_of_Z 0)
        <$> (sample_of averageBrightness
             <$> [plain_frame (RGBA x33 x00 x00 xff) 1000;
                  plain_frame (RGBA x99 x00 x00 xff) 1016;
                  plain_frame (RGBA x66 x00 x00 xff) 1032 : frame xnum]))
  ∧ (m ← ticks (processFrame (Canvas 300 150) (js_of_Z 6)) initial
           [plain_frame (RGBA x33 x00 x00 xff) 1000;
            plain_frame (RGBA x99 x00 x00 xff) 1016;
            plain_frame (RGBA x66 x00 x00 xff) 1032 : frame float];
     d ← analyzeData (SAMPLE_BUFFER m); mret (length (crossings d)))
    = Normal 1%nat
  ∧ (m ← ticks (processFrame (Canvas 300 150) (js_of_Z 6)) initial
           [plain_frame (RGBA x99 x00 x00 xff) 1000;
            plain_frame (RGBA xe6 xe5 x00 xff) 1016;
            plain_frame (RGBA x99 x99 x00 xff) 1032 : frame float];
     d ← analyzeData (SAMPLE_BUFFER m); mret (length (crossings d)))
    = Normal 0%nat.
Proof.
  split; [|split; [exact gain_three|exact gain_matters_on_doubles]].
  intros gain offset samples values d. apply gain_and_offset_exactly.
Qed.

Lemma analysis_ignores_gain_and_offset_witness :
  ∃ d d',
    analyzeData (swing : list (sample xnum)) = Normal d
    ∧ analyzeData (rescale (Qc_of_Z 2) (Qc_of_Z 1) <$> swing) = Normal d'
    ∧ calculateBpm (crossings d') = calculateBpm (crossings d)
    ∧ drawGraph_main (Canvas 300 150) (rescale (Qc_of_Z 2) (Qc_of_Z 1) <$> swing) d'
      = drawGraph_main (Canvas 300 150) swing d.
Proof.
  destruct (analyzeData (swing : list (sample xnum))) as [d|e] eqn:E;
    [|by vm_compute in E].
  destruct analysis_ignores_gain_and_offset as [Hexact _].
  destruct (Hexact (Qc_of_Z 2) (Qc_of_Z 1) swing swing_values d)
    as (d' & Hd' & _ & Hbpm & Hgraph & _);
    [done|reflexivity|exact E|].
  by exists d, d'.
Defined.

End Arithmetic.
